(** * Outgoing batches of the gravity bridge keeper

    A shallow embedding of [module/x/gravity/keeper/batch.go]: the nonce
    counter, the fee evaluation over the unbatched pool, the projection of the
    Ethereum timeout height, batch creation, cancellation and execution.

    Conventions.
    - A Go [uint64] is a [Z] in [0, 2^64); every operation that can leave the
      range is wrapped with [wrap64].  [ctx.BlockHeight()] is an [int64].
    - An [sdk.Int] is a [Z]; its addition panics when the sum needs more
      than [maxBitLen] bits, a constant of the SDK that is a parameter here.
    - A Go pointer that can be [nil] is an [option]; reading a field through
      a [nil] pointer is the run-time panic [Panic].
    - A Go [int] ([maxElements], the counter of a visitor, [len]) is a [Z];
      a pool has far fewer than 2^63 entries, so these never wrap.
    - The keeper's store is a record of finite maps, one per key prefix that
      this file touches, keyed by the parts of the byte key that follow the
      prefix; keeper methods are computations in the monad [M] (state of
      the context, plus panic).
    - A scan ([IterateOutgoingTxs],
      [IterateUnbatchedSendToEthereumsByContract]) visits the records that
      were under the prefix when it started, whatever the visitor deletes
      meanwhile.  The spec fixes the order of the pool scan (fee-descending)
      and leaves the order of the batch scan open; nothing proved below
      depends on the order of the batch scan, and only the facts about the
      priority order of a built batch depend on the order of the pool scan.
    - The slashing watermark is a store cell of its own; the slashing
      queries run on a context that carries it next to the batch store. *)

From Stdlib Require Import ZArith NArith Lia.
From Stdlib.Strings Require Import Byte Ascii.
From Stdlib Require Import HexadecimalString HexadecimalN.
From stdpp Require Import gmap strings list sorting.

Local Open Scope Z_scope.

(** ** Machine integers and byte strings *)

Definition wrap64 (z : Z) : Z := z mod 2 ^ 64.

(** Go's [uint64(x)] on an [int64]. *)
Definition uint64_of_int64 (z : Z) : Z := wrap64 z.

Definition Z_of_byte (b : byte) : Z := Z.of_N (Byte.to_N b).

Definition byte_of_Z (z : Z) : byte :=
  default Byte.x00 (Byte.of_N (Z.to_N (z mod 256))).

(** Results of code that may panic. *)
Inductive Res (A : Type) : Type :=
  | Ok (a : A)
  | Panic.
Arguments Ok {A} a.
Arguments Panic {A}.

(** [sdk.Uint64ToBigEndian]: eight bytes, most significant first. *)
Definition Uint64ToBigEndian (i : Z) : list byte :=
  map (fun k => byte_of_Z (Z.shiftr i (8 * k))) [7; 6; 5; 4; 3; 2; 1; 0].

(** [binary.BigEndian.Uint64]: the bounds check [_ = b[7]] panics on a slice
    shorter than eight bytes; the first eight bytes are read. *)
Definition BigEndianUint64 (bz : list byte) : Res Z :=
  if (length bz <? 8)%nat then Panic
  else Ok (fold_left (fun acc b => acc * 256 + Z_of_byte b) (take 8 bz) 0).

(** ** Addresses

    [common.Address] is a 20-byte value, kept here as the number it denotes.
    [Address.Hex] (the checksummed hexadecimal form) and [common.HexToAddress]
    belong to go-ethereum; the keeper only relies on the fact that parsing
    the printed form gives the address back. *)

Abbreviation Address := N (only parsing).

Class AddressCodec : Type := {
  Hex : Address -> string;
  HexToAddress : string -> Address;
  HexToAddress_Hex : forall a : Address, HexToAddress (Hex a) = a
}.

(** A concrete codec used in the examples: "0x" followed by the hexadecimal
    digits of the number, lower case, without padding. *)
Definition plainHex (a : Address) : string :=
  String "0"%char (String "x"%char (NilEmpty.string_of_uint (N.to_hex_uint a))).

Definition plainHexToAddress (s : string) : Address :=
  match s with
  | String "0"%char (String "x"%char digits) =>
      match NilEmpty.uint_of_string digits with
      | Some d => N.of_hex_uint d
      | None => 0%N
      end
  | _ => 0%N
  end.

(** ** sdk.Int

    An [sdk.Int] wraps a big integer of at most [maxBitLen] bits.  The bound
    is a constant of the SDK (255 or 256, by version); the development is
    parametric in it. *)

Class SdkIntLimit : Type := { maxBitLen : N }.

(** [sdk.Int.Add]: the sum, checked after the addition; a sum whose absolute
    value needs more than [maxBitLen] bits is a panic. *)
Definition Int_Add `{lim : SdkIntLimit} (i i2 : Z) : Res Z :=
  if Z.abs (i + i2) <? 2 ^ Z.of_N maxBitLen then Ok (i + i2) else Panic.

(** ** Data model *)

Record ERC20Token : Type := {
  Contract : string;
  Amount : Z
}.

Record SendToEthereum : Type := {
  Id : Z;
  Sender : string;
  EthereumRecipient : string;
  Erc20Token : ERC20Token;
  Erc20Fee : ERC20Token
}.

Record BatchTx : Type := {
  Nonce : Z;
  Timeout : Z;
  Transactions : list SendToEthereum;
  TokenContract : string;
  Height : Z
}.

(** The records kept in the outgoing-transaction store share one interface,
    [types.OutgoingTx]; only the batch variant is opened here. *)
Inductive OutgoingTx : Type :=
  | OtxBatch (b : BatchTx)
  | OtxSignerSet (nonce : Z)
  | OtxContractCall (scope : list byte) (nonce : Z).

Record LatestEthereumBlockHeight : Type := {
  EthereumHeight : Z;
  CosmosHeight : Z
}.

Record Params : Type := {
  AverageBlockTime : Z;
  AverageEthereumBlockTime : Z;
  TargetBatchTimeout : Z;
  BridgeContractAddress : string;
  BridgeChainID : Z
}.

Inductive EventType : Type :=
  | EventTypeOutgoingBatch
  | EventTypeOutgoingBatchCanceled.

Record Event : Type := {
  evType : EventType;
  evContract : string;
  evBridgeChainID : Z;
  evNonce : Z
}.

(** Key of a batch under [BatchTxPrefixByte]: token contract and nonce. *)
Abbreviation BatchKey := (Address * Z)%type (only parsing).

(** Key of an unbatched transfer under [SendToEthereumKey]: fee contract,
    fee amount, id. *)
Abbreviation PoolKey := (Address * Z * Z)%type (only parsing).

Record Ctx : Type := {
  BlockHeight : Z;
  outgoingTxs : gmap (Address * Z) OutgoingTx;
  unbatched : gmap (Address * Z * Z) SendToEthereum;
  lastOutgoingBatchNonce : option (list byte);
  lastObserved : LatestEthereumBlockHeight;
  params : Params;
  events : list Event
}.

Definition with_outgoingTxs (m : gmap (Address * Z) OutgoingTx) (c : Ctx) : Ctx :=
  {| BlockHeight := BlockHeight c; outgoingTxs := m; unbatched := unbatched c;
     lastOutgoingBatchNonce := lastOutgoingBatchNonce c;
     lastObserved := lastObserved c; params := params c; events := events c |}.

Definition with_unbatched (m : gmap (Address * Z * Z) SendToEthereum) (c : Ctx) : Ctx :=
  {| BlockHeight := BlockHeight c; outgoingTxs := outgoingTxs c; unbatched := m;
     lastOutgoingBatchNonce := lastOutgoingBatchNonce c;
     lastObserved := lastObserved c; params := params c; events := events c |}.

Definition with_lastOutgoingBatchNonce (bz : option (list byte)) (c : Ctx) : Ctx :=
  {| BlockHeight := BlockHeight c; outgoingTxs := outgoingTxs c;
     unbatched := unbatched c; lastOutgoingBatchNonce := bz;
     lastObserved := lastObserved c; params := params c; events := events c |}.

Definition with_events (es : list Event) (c : Ctx) : Ctx :=
  {| BlockHeight := BlockHeight c; outgoingTxs := outgoingTxs c;
     unbatched := unbatched c;
     lastOutgoingBatchNonce := lastOutgoingBatchNonce c;
     lastObserved := lastObserved c; params := params c; events := es |}.

(** ** The keeper monad: context passing with panics *)

Definition M (A : Type) : Type := Ctx -> Res (A * Ctx).

Definition ret {A : Type} (a : A) : M A := fun c => Ok (a, c).

Definition bind {A B : Type} (m : M A) (k : A -> M B) : M B :=
  fun c => match m c with
           | Ok (a, c') => k a c'
           | Panic => Panic
           end.

Definition panic {A : Type} : M A := fun _ => Panic.

Definition get : M Ctx := fun c => Ok (c, c).

Definition modify (f : Ctx -> Ctx) : M unit := fun c => Ok (tt, f c).

Definition lift {A : Type} (r : Res A) : M A :=
  fun c => match r with Ok a => Ok (a, c) | Panic => Panic end.

Notation "x <- m ;; k" := (bind m (fun x => k))
  (at level 100, m at level 99, k at level 200, right associativity).
Notation "m ;;; k" := (bind m (fun _ => k))
  (at level 100, k at level 200, right associativity).

(** Field access through a pointer that may be [nil]. *)
Definition deref {A B : Type} (p : option A) (field : A -> B) : M B :=
  match p with
  | Some a => ret (field a)
  | None => panic
  end.

(** ** NonceAllocator *)

Definition IncrementLastOutgoingBatchNonce : M Z :=
  c <- get ;;
  let bz := lastOutgoingBatchNonce c in
  id <- match bz with
        | Some b => lift (BigEndianUint64 b)
        | None => ret 0
        end ;;
  let newId := wrap64 (id + 1) in
  let bz := Uint64ToBigEndian newId in
  modify (with_lastOutgoingBatchNonce (Some bz)) ;;;
  ret newId.

(** The [k]-th of [k] successive calls; its value is what that call returns. *)
Definition AllocateNth (k : N) : M Z :=
  N.iter k (fun m => m ;;; IncrementLastOutgoingBatchNonce) (ret 0).

(** ** The store, as the keeper's other files expose it *)

Section Keeper.
Context `{codec : AddressCodec} `{lim : SdkIntLimit}.

(** Modelled from the spec: [types.MakeBatchTxKey], the batch key made of the
    20-byte token contract address followed by the big-endian nonce (the
    prefix byte is implicit in [outgoingTxs]). *)
Definition MakeBatchTxKey (addr : Address) (nonce : Z) : BatchKey := (addr, nonce).

(** Modelled from the spec: [BatchTx.GetStoreIndex], the identity key
    (token contract, nonce) of a batch, read from its fields; on a [nil]
    batch the read panics (see [deref] at the call sites). *)
Definition GetStoreIndex (b : BatchTx) : BatchKey :=
  MakeBatchTxKey (HexToAddress (TokenContract b)) (Nonce b).

(** Modelled from the spec: [BatchTx.GetFees], the total fee of a batch, the
    sum of the fee amounts of its member transfers. *)
Definition GetFees (b : BatchTx) : Z :=
  fold_left (fun sum t => sum + Amount (Erc20Fee t)) (Transactions b) 0.

(** The type assertion of an [OutgoingTx] to a batch pointer in its comma-ok
    form: [nil] when the interface value is [nil] or holds another variant. *)
Definition asBatchTx (otx : option OutgoingTx) : option BatchTx :=
  match otx with
  | Some (OtxBatch b) => Some b
  | _ => None
  end.

(** Modelled from the spec: [GetOutgoingTx], the record stored under a key,
    [nil] when there is none. *)
Definition GetOutgoingTx (key : BatchKey) : M (option OutgoingTx) :=
  c <- get ;; ret (outgoingTxs c !! key).

(** Modelled from the spec: [SetOutgoingTx], which stores a batch under its
    (token contract, nonce) key. *)
Definition SetOutgoingTx (b : BatchTx) : M unit :=
  modify (fun c => with_outgoingTxs (<[GetStoreIndex b := OtxBatch b]> (outgoingTxs c)) c).

(** Modelled from the spec: [DeleteOutgoingTx], which deletes the record
    under a key. *)
Definition DeleteOutgoingTx (key : BatchKey) : M unit :=
  modify (fun c => with_outgoingTxs (delete key (outgoingTxs c)) c).

(** Modelled from the spec: [types.MakeSendToEthereumKey], the key of an
    unbatched transfer, which indexes it by fee contract, then fee amount,
    then id (faithful for fee amounts in [0, 2^256), which a key can
    hold). *)
Definition MakeSendToEthereumKey (id : Z) (fee : ERC20Token) : PoolKey :=
  (HexToAddress (Contract fee), Amount fee, id).

(** Modelled from the spec: [SetUnbatchedSendToEthereum], which inserts a
    transfer into the unbatched pool, indexed by its fee. *)
Definition SetUnbatchedSendToEthereum (ste : SendToEthereum) : M unit :=
  modify (fun c =>
    with_unbatched (<[MakeSendToEthereumKey (Id ste) (Erc20Fee ste) := ste]> (unbatched c)) c).

(** Modelled from the spec: [DeleteUnbatchedSendToEthereum], which removes
    the pool entry indexed by this id and fee. *)
Definition DeleteUnbatchedSendToEthereum (id : Z) (fee : ERC20Token) : M unit :=
  modify (fun c => with_unbatched (delete (MakeSendToEthereumKey id fee) (unbatched c)) c).

Definition EmitEvent (e : Event) : M unit :=
  modify (fun c => with_events (events c ++ [e]) c).

(** *** Scans

    A scan visits the records that are under the prefix when it starts, in
    key order, and hands each one to the visitor together with the values of
    the variables the visitor captures; the visitor answers with the new
    values of those variables and the stop signal. *)

Fixpoint visit {A Acc : Type} (cb : A -> Acc -> M (Acc * bool))
    (xs : list A) (acc : Acc) : M Acc :=
  match xs with
  | [] => ret acc
  | x :: rest =>
      r <- cb x acc ;;
      if r.2 then ret r.1 else visit cb rest r.1
  end.

Definition batchKey_leb (k1 k2 : BatchKey) : bool :=
  (k1.1 <? k2.1)%N || ((k1.1 =? k2.1)%N && (k1.2 <=? k2.2)).

(** The records under [BatchTxPrefixByte], by increasing key. *)
Definition outgoing_scan (c : Ctx) : list (BatchKey * OutgoingTx) :=
  merge_sort (fun x y => batchKey_leb x.1 y.1) (map_to_list (outgoingTxs c)).

(** Modelled from the spec: [IterateOutgoingTxs] over [BatchTxPrefixByte],
    which scans all outstanding batches. *)
Definition IterateOutgoingTxs {Acc : Type}
    (cb : BatchKey * OutgoingTx -> Acc -> M (Acc * bool)) (acc : Acc) : M Acc :=
  c <- get ;; visit cb (outgoing_scan c) acc.

(** Fee-descending order on pool keys of one contract: larger fee amount
    first, then larger id. *)
Definition poolKey_geb (k1 k2 : PoolKey) : bool :=
  (k2.1.2 <? k1.1.2) || ((k2.1.2 =? k1.1.2) && (k2.2 <=? k1.2)).

(** The unbatched pool of a contract, in priority order. *)
Definition pool_scan (c : Ctx) (contract : Address) : list SendToEthereum :=
  (merge_sort (fun x y => poolKey_geb x.1 y.1)
     (filter (fun kv => kv.1.1.1 = contract) (map_to_list (unbatched c)))).*2.

(** Modelled from the spec: [IterateUnbatchedSendToEthereumsByContract],
    which visits the pending transfers of a token in fee-descending order
    until the visitor signals to stop. *)
Definition IterateUnbatchedSendToEthereumsByContract {Acc : Type}
    (contract : Address) (cb : SendToEthereum -> Acc -> M (Acc * bool))
    (acc : Acc) : M Acc :=
  c <- get ;; visit cb (pool_scan c contract) acc.

(** Go's [for _, tx := range txs { f(tx) }]. *)
Fixpoint forEach {A : Type} (f : A -> M unit) (xs : list A) : M unit :=
  match xs with
  | [] => ret tt
  | x :: rest => f x ;;; forEach f rest
  end.

(** Go's unsigned division: a zero divisor is a run-time panic. *)
Definition udiv (a b : Z) : M Z :=
  if b =? 0 then panic else ret (a / b).

(** ** FeeEvaluator *)

(** The visitor of [GetBatchFeesByTokenType]; it captures [feeAmount] and
    the counter [i]. *)
Definition feeVisitor (maxElements : Z) (tx : SendToEthereum) (acc : Z * Z)
    : M (Z * Z * bool) :=
  feeAmount <- lift (Int_Add acc.1 (Amount (Erc20Fee tx))) ;;
  let i := acc.2 + 1 in
  ret ((feeAmount, i), i =? maxElements).

Definition GetBatchFeesByTokenType (tokenContractAddr : Address) (maxElements : Z) : M Z :=
  r <- IterateUnbatchedSendToEthereumsByContract tokenContractAddr
         (feeVisitor maxElements) (0, 0) ;;
  ret r.1.

(** ** TimeoutProjector *)

Definition getBatchTimeoutHeight : M Z :=
  c <- get ;;
  let params := params c in
  let currentCosmosHeight := BlockHeight c in
  let heights := lastObserved c in
  if (CosmosHeight heights =? 0) || (EthereumHeight heights =? 0) then ret 0
  else
    let projectedMillis :=
      wrap64 (wrap64 (uint64_of_int64 currentCosmosHeight - CosmosHeight heights)
              * AverageBlockTime params) in
    q <- udiv projectedMillis (AverageEthereumBlockTime params) ;;
    let projectedCurrentEthereumHeight := wrap64 (q + EthereumHeight heights) in
    blocksToAdd <- udiv (TargetBatchTimeout params) (AverageEthereumBlockTime params) ;;
    ret (wrap64 (projectedCurrentEthereumHeight + blocksToAdd)).

(** ** BatchLifecycleManager *)

(** The visitor of [GetLastOutgoingBatchByTokenType]; it captures
    [lastBatch] and [lastNonce]. *)
Definition lastBatchVisitor (token : Address) (kv : BatchKey * OutgoingTx)
    (acc : option BatchTx * Z) : M (option BatchTx * Z * bool) :=
  let btx := asBatchTx (Some kv.2) in
  let lastNonce := acc.2 in
  tc <- deref btx TokenContract ;;
  matches <- (if bool_decide (HexToAddress tc = token)
              then n <- deref btx Nonce ;; ret (lastNonce <? n)
              else ret false) ;;
  if matches : bool
  then n <- deref btx Nonce ;; ret ((btx, n), false)
  else ret (acc, false).

Definition GetLastOutgoingBatchByTokenType (token : Address) : M (option BatchTx) :=
  r <- IterateOutgoingTxs (lastBatchVisitor token) (None, 0) ;;
  ret r.1.

Definition CancelBatchTx (tokenContract : Address) (nonce : Z) : M unit :=
  otx <- GetOutgoingTx (MakeBatchTxKey tokenContract nonce) ;;
  let batch := asBatchTx otx in
  txs <- deref batch Transactions ;;
  forEach SetUnbatchedSendToEthereum txs ;;;
  idx <- deref batch GetStoreIndex ;;
  DeleteOutgoingTx idx ;;;
  c <- get ;;
  EmitEvent {| evType := EventTypeOutgoingBatchCanceled;
               evContract := BridgeContractAddress (params c);
               evBridgeChainID := BridgeChainID (params c);
               evNonce := nonce |}.

(** The visitor of [BatchTxExecuted]; it captures the executed batch
    [batchTx] and the token contract. *)
Definition cancelEarlierVisitor (tokenContract : Address) (batchTx : option BatchTx)
    (kv : BatchKey * OutgoingTx) (_ : unit) : M (unit * bool) :=
  let btx := asBatchTx (Some kv.2) in
  bn <- deref btx Nonce ;;
  en <- deref batchTx Nonce ;;
  (if bn <? en then
     tc <- deref batchTx TokenContract ;;
     if String.eqb tc (Hex tokenContract)
     then CancelBatchTx tokenContract bn
     else ret tt
   else ret tt) ;;;
  ret (tt, false).

Definition BatchTxExecuted (tokenContract : Address) (nonce : Z) : M unit :=
  otx <- GetOutgoingTx (MakeBatchTxKey tokenContract nonce) ;;
  let batchTx := asBatchTx otx in
  IterateOutgoingTxs (cancelEarlierVisitor tokenContract batchTx) tt ;;;
  idx <- deref batchTx GetStoreIndex ;;
  DeleteOutgoingTx idx.

(** ** BatchBuilder *)

(** The visitor of the selection step of [BuildBatchTx]; it captures
    [selectedStes]. *)
Definition selectVisitor (maxElements : Z) (ste : SendToEthereum)
    (selectedStes : list SendToEthereum) : M (list SendToEthereum * bool) :=
  let selectedStes := selectedStes ++ [ste] in
  DeleteUnbatchedSendToEthereum (Id ste) (Erc20Fee ste) ;;;
  ret (selectedStes, Z.of_nat (length selectedStes) =? maxElements).

Definition BuildBatchTx (contractAddress : Address) (maxElements : Z) : M (option BatchTx) :=
  lastBatch <- GetLastOutgoingBatchByTokenType contractAddress ;;
  notProfitable <- match lastBatch with
                   | Some lb =>
                       fees <- GetBatchFeesByTokenType contractAddress maxElements ;;
                       ret (GetFees lb >=? fees)
                   | None => ret false
                   end ;;
  if notProfitable : bool then ret None
  else
    selectedStes <- IterateUnbatchedSendToEthereumsByContract contractAddress
                      (selectVisitor maxElements) [] ;;
    nonce <- IncrementLastOutgoingBatchNonce ;;
    timeout <- getBatchTimeoutHeight ;;
    c <- get ;;
    let batch := {| Nonce := nonce;
                    Timeout := timeout;
                    Transactions := selectedStes;
                    TokenContract := Hex contractAddress;
                    Height := uint64_of_int64 (BlockHeight c) |} in
    SetOutgoingTx batch ;;;
    EmitEvent {| evType := EventTypeOutgoingBatch;
                 evContract := BridgeContractAddress (params c);
                 evBridgeChainID := BridgeChainID (params c);
                 evNonce := Nonce batch |} ;;;
    ret (Some batch).

End Keeper.

(** ** Slashing watermark and slash candidates

    The cell under [LastSlashedBatchBlockKey] is kept beside the context:
    the two share one store and their keys have different prefix bytes. *)

Record SlashCtx : Type := {
  keeperCtx : Ctx;
  lastSlashedBatchBlock : option (list byte)
}.

(** Modelled from the spec: [types.UInt64Bytes], the 8-byte big-endian value
    of the watermark. *)
Definition UInt64Bytes (n : Z) : list byte := Uint64ToBigEndian n.

(** Modelled from the spec: [types.UInt64FromBytes], which reads the 8-byte
    big-endian value back. *)
Definition UInt64FromBytes (bz : list byte) : Res Z := BigEndianUint64 bz.

Definition SetLastSlashedBatchBlockHeight (blockHeight : Z) (s : SlashCtx) : SlashCtx :=
  {| keeperCtx := keeperCtx s;
     lastSlashedBatchBlock := Some (UInt64Bytes blockHeight) |}.

Definition GetLastSlashedBatchBlockHeight (s : SlashCtx) : Res Z :=
  match lastSlashedBatchBlock s with
  | None => Ok 0
  | Some bz => UInt64FromBytes bz
  end.

(** The type assertion of an [OutgoingTx] to a batch pointer in its plain
    form: a panic when the value holds another variant. *)
Definition assertBatchTx (otx : OutgoingTx) : M BatchTx :=
  match otx with
  | OtxBatch b => ret b
  | _ => panic
  end.

(** The visitor of [GetUnSlashedBatches]; it captures [out]. *)
Definition unslashedVisitor (maxHeight lastSlashedBatchBlockHeight : Z)
    (kv : BatchKey * OutgoingTx) (out : list BatchTx) : M (list BatchTx * bool) :=
  batchTx <- assertBatchTx kv.2 ;;
  let out := if (Height batchTx <? maxHeight)
                && (lastSlashedBatchBlockHeight <? Height batchTx)
             then out ++ [batchTx] else out in
  ret (out, false).

Definition GetUnSlashedBatches (maxHeight : Z) (s : SlashCtx)
    : Res (list BatchTx * SlashCtx) :=
  match GetLastSlashedBatchBlockHeight s with
  | Panic => Panic
  | Ok lastSlashedBatchBlockHeight =>
      match IterateOutgoingTxs
              (unslashedVisitor maxHeight lastSlashedBatchBlockHeight) []
              (keeperCtx s) with
      | Ok (out, c) =>
          Ok (out, {| keeperCtx := c;
                      lastSlashedBatchBlock := lastSlashedBatchBlock s |})
      | Panic => Panic
      end
  end.

(** * Notions used in the statements *)

(** The deadline as the spec writes it, over unbounded integers. *)
Definition projectedTimeout (c : Ctx) : Z :=
  EthereumHeight (lastObserved c)
  + ((BlockHeight c - CosmosHeight (lastObserved c)) * AverageBlockTime (params c))
    / AverageEthereumBlockTime (params c)
  + TargetBatchTimeout (params c) / AverageEthereumBlockTime (params c).

(** Total fee of a list of transfers. *)
Definition sumFees (l : list SendToEthereum) : Z :=
  fold_left (fun sum t => sum + Amount (Erc20Fee t)) l 0.

(** The running total of the fee evaluation over a list of transfers,
    starting from [feeAmount]: one [Int_Add] per transfer, first to last. *)
Fixpoint addFees `{lim : SdkIntLimit} (feeAmount : Z) (l : list SendToEthereum) : Res Z :=
  match l with
  | [] => Ok feeAmount
  | t :: rest =>
      match Int_Add feeAmount (Amount (Erc20Fee t)) with
      | Ok sum => addFees sum rest
      | Panic => Panic
      end
  end.

(** The entries a visitor sees when it stops as soon as its count, which
    starts at [seen], equals [maxElements] after an entry was taken. *)
Fixpoint visited {A : Type} (maxElements seen : Z) (xs : list A) : list A :=
  match xs with
  | [] => []
  | x :: rest =>
      x :: (if seen + 1 =? maxElements then []
            else visited maxElements (seen + 1) rest)
  end.

Section Notions.
Context `{codec : AddressCodec}.

(** A store in which every record under the batch prefix decodes to a batch
    whose nonce is a [uint64]. *)
Definition all_batches (c : Ctx) : Prop :=
  forall k otx, outgoingTxs c !! k = Some otx ->
    exists b, otx = OtxBatch b /\ 0 <= Nonce b.

(** [b] is an outstanding batch of token [T]. *)
Definition outstanding (c : Ctx) (T : Address) (b : BatchTx) : Prop :=
  (exists k, outgoingTxs c !! k = Some (OtxBatch b)) /\
  HexToAddress (TokenContract b) = T.

(** The batch store is well keyed: every batch sits under its own
    (token contract, nonce) key, as [SetOutgoingTx] stores it. *)
Definition store_well_keyed (c : Ctx) : Prop :=
  forall k b, outgoingTxs c !! k = Some (OtxBatch b) -> GetStoreIndex b = k.

(** The pool key under which a transfer is (re-)indexed. *)
Definition steKey (ste : SendToEthereum) : PoolKey :=
  MakeSendToEthereumKey (Id ste) (Erc20Fee ste).

(** The pool is well keyed: every entry sits under the key made of its own
    id and fee, as [SetUnbatchedSendToEthereum] stores it. *)
Definition pool_well_keyed (c : Ctx) : Prop :=
  forall k ste, unbatched c !! k = Some ste -> k = steKey ste.

(** The unbatched pool of token [T] is empty. *)
Definition pool_empty (c : Ctx) (T : Address) : Prop :=
  forall k ste, unbatched c !! k = Some ste -> k.1.1 <> T.

(** Two members indexed under one pool key are the same transfer. *)
Definition members_distinct (l : list SendToEthereum) : Prop :=
  forall t t', t ∈ l -> t' ∈ l -> steKey t = steKey t' -> t = t'.

(** The pool after the entries indexed like the transfers of [l] were
    deleted. *)
Definition drain (l : list SendToEthereum) (m : gmap (Address * Z * Z) SendToEthereum)
    : gmap (Address * Z * Z) SendToEthereum :=
  fold_left (fun m ste => delete (steKey ste) m) l m.

(** The pool after the transfers of [l] were put back, first to last. *)
Definition requeue (l : list SendToEthereum) (m : gmap (Address * Z * Z) SendToEthereum)
    : gmap (Address * Z * Z) SendToEthereum :=
  fold_left (fun m ste => <[steKey ste := ste]> m) l m.

(** The profitability guard of [BuildBatchTx]. *)
Definition guardAborts (last : option BatchTx) (fees : Z) : bool :=
  match last with
  | Some lb => GetFees lb >=? fees
  | None => false
  end.

(** The batch that [BuildBatchTx] assembles. *)
Definition builtBatch (c : Ctx) (T : Address) (sel : list SendToEthereum)
    (nonce timeout : Z) : BatchTx :=
  {| Nonce := nonce;
     Timeout := timeout;
     Transactions := sel;
     TokenContract := Hex T;
     Height := uint64_of_int64 (BlockHeight c) |}.

(** The context that [BuildBatchTx] leaves when it builds a batch. *)
Definition builtCtx (c : Ctx) (T : Address) (sel : list SendToEthereum)
    (nonce timeout : Z) : Ctx :=
  with_events
    (events c ++ [{| evType := EventTypeOutgoingBatch;
                     evContract := BridgeContractAddress (params c);
                     evBridgeChainID := BridgeChainID (params c);
                     evNonce := nonce |}])
    (with_outgoingTxs
       (<[(T, nonce) := OtxBatch (builtBatch c T sel nonce timeout)]> (outgoingTxs c))
       (with_lastOutgoingBatchNonce (Some (Uint64ToBigEndian nonce))
          (with_unbatched (drain sel (unbatched c)) c))).

(** The context that [CancelBatchTx] leaves for the batch [b] found under
    nonce [k]. *)
Definition cancelledCtx (c : Ctx) (k : Z) (b : BatchTx) : Ctx :=
  with_events
    (events c ++ [{| evType := EventTypeOutgoingBatchCanceled;
                     evContract := BridgeContractAddress (params c);
                     evBridgeChainID := BridgeChainID (params c);
                     evNonce := k |}])
    (with_outgoingTxs (delete (GetStoreIndex b) (outgoingTxs c))
       (with_unbatched (requeue (Transactions b) (unbatched c)) c)).

End Notions.

(** * Example data

    The plain codec is an [AddressCodec]; the contexts below are the concrete
    states at which the theorems are instantiated. *)

#[export] Instance plainCodec : AddressCodec.
Proof.
  refine {| Hex := plainHex; HexToAddress := plainHexToAddress |}.
  intros a. unfold plainHexToAddress, plainHex.
  rewrite NilEmpty.usu. apply Unsigned.of_to.
Defined.

(** The bit limit used in the examples. *)
#[export] Instance exampleLimit : SdkIntLimit := {| maxBitLen := 256 |}.

(** Parameters of the spec's example: 5 s home blocks, 15 s foreign blocks,
    a 12 h target timeout. *)
Definition exampleParams : Params :=
  {| AverageBlockTime := 5000;
     AverageEthereumBlockTime := 15000;
     TargetBatchTimeout := 43200000;
     BridgeContractAddress := "0xb";
     BridgeChainID := 1 |}.

(** A context with empty stores at home height 160, last observation
    (home 100, foreign 1000). *)
Definition freshCtx : Ctx :=
  {| BlockHeight := 160;
     outgoingTxs := ∅;
     unbatched := ∅;
     lastOutgoingBatchNonce := None;
     lastObserved := {| EthereumHeight := 1000; CosmosHeight := 100 |};
     params := exampleParams;
     events := [] |}.

Definition with_BlockHeight (h : Z) (c : Ctx) : Ctx :=
  {| BlockHeight := h; outgoingTxs := outgoingTxs c; unbatched := unbatched c;
     lastOutgoingBatchNonce := lastOutgoingBatchNonce c;
     lastObserved := lastObserved c; params := params c; events := events c |}.

Definition with_lastObserved (h : LatestEthereumBlockHeight) (c : Ctx) : Ctx :=
  {| BlockHeight := BlockHeight c; outgoingTxs := outgoingTxs c;
     unbatched := unbatched c;
     lastOutgoingBatchNonce := lastOutgoingBatchNonce c;
     lastObserved := h; params := params c; events := events c |}.

(** The never-observed state: the observed pair is (0, 0). *)
Definition neverObservedCtx : Ctx :=
  with_lastObserved {| EthereumHeight := 0; CosmosHeight := 0 |} freshCtx.

(** The home chain at height 50, below the observed home height 100. *)
Definition behindCtx : Ctx := with_BlockHeight 50 freshCtx.

(** A transfer of token [T] with the given id and fee. *)
Definition exampleSte (T : Address) (id fee : Z) : SendToEthereum :=
  {| Id := id;
     Sender := "cosmos1sender";
     EthereumRecipient := "0xd";
     Erc20Token := {| Contract := plainHex T; Amount := 100 |};
     Erc20Fee := {| Contract := plainHex T; Amount := fee |} |}.

(** A batch of token [T] with the given nonce and members. *)
Definition exampleBatch (T : Address) (nonce : Z) (txs : list SendToEthereum) : BatchTx :=
  {| Nonce := nonce; Timeout := 3900; Transactions := txs;
     TokenContract := plainHex T; Height := 160 |}.

(** Two outstanding batches of token 5, nonces 1 and 2, and one of token 6,
    nonce 3. *)
Definition threeBatchCtx : Ctx :=
  with_outgoingTxs
    (<[(5%N, 1) := OtxBatch (exampleBatch 5%N 1 [])]>
     (<[(5%N, 2) := OtxBatch (exampleBatch 5%N 2 [])]>
      (<[(6%N, 3) := OtxBatch (exampleBatch 6%N 3 [])]> ∅)))
    freshCtx.

(** One outstanding batch of token 5 with nonce 0. *)
Definition zeroNonceCtx : Ctx :=
  with_outgoingTxs (<[(5%N, 0) := OtxBatch (exampleBatch 5%N 0 [])]> ∅) freshCtx.

(** The pool of the spec's end-to-end example: token 5 has three transfers
    with fees 10, 7 and 3; token 6 has one with fee 9. *)
Definition poolCtx : Ctx :=
  with_unbatched
    (<[(5%N, 7, 1) := exampleSte 5%N 1 7]>
     (<[(5%N, 10, 2) := exampleSte 5%N 2 10]>
      (<[(5%N, 3, 3) := exampleSte 5%N 3 3]>
       (<[(6%N, 9, 4) := exampleSte 6%N 4 9]> ∅))))
    freshCtx.

(** A batch of token 5 with nonce 1 holding the transfers with fees 10
    and 7; the pool keeps the transfer with fee 3. *)
Definition batchedCtx : Ctx :=
  with_outgoingTxs
    (<[(5%N, 1) := OtxBatch (exampleBatch 5%N 1
                               [exampleSte 5%N 2 10; exampleSte 5%N 1 7])]> ∅)
    (with_unbatched (<[(5%N, 3, 3) := exampleSte 5%N 3 3]> ∅) freshCtx).

(** An outstanding batch of token 5 with nonce 2, and one of token 6 with
    nonce 1. *)
Definition twoTokenCtx : Ctx :=
  with_outgoingTxs
    (<[(5%N, 2) := OtxBatch (exampleBatch 5%N 2 [exampleSte 5%N 1 7])]>
     (<[(6%N, 1) := OtxBatch (exampleBatch 6%N 1 [exampleSte 6%N 4 9])]> ∅))
    freshCtx.

(** * Further notions and example data *)

(** The first [n] entries of a list when [n] is positive, the whole list
    otherwise: what a visitor that stops at count [n] gets to see. *)
Definition limitPrefix {A : Type} (n : Z) (l : list A) : list A :=
  if 0 <? n then take (Z.to_nat n) l else l.

(** A batch is a slash candidate: its creation height lies strictly between
    the watermark and [maxHeight]. *)
Definition slash_candidate (lastSlashed maxHeight : Z) (b : BatchTx) : Prop :=
  lastSlashed < Height b < maxHeight.

(** Fee-descending order on transfers. *)
Definition fee_geq (a b : SendToEthereum) : Prop :=
  Amount (Erc20Fee b) <= Amount (Erc20Fee a).

(** The batches of [threeBatchCtx] (all created at height 160), with the
    watermark never set. *)
Definition slashCtx : SlashCtx :=
  {| keeperCtx := threeBatchCtx; lastSlashedBatchBlock := None |}.

(** A store whose batch prefix holds a record that is not a batch. *)
Definition strayRecordCtx : Ctx :=
  with_outgoingTxs
    (<[(5%N, 1) := OtxBatch (exampleBatch 5%N 1 [])]>
     (<[(6%N, 9) := OtxSignerSet 9]> ∅))
    freshCtx.

(** Parameters with a zero foreign block time. *)
Definition zeroForeignTimeCtx : Ctx :=
  {| BlockHeight := 160;
     outgoingTxs := ∅;
     unbatched := ∅;
     lastOutgoingBatchNonce := None;
     lastObserved := {| EthereumHeight := 1000; CosmosHeight := 100 |};
     params := {| AverageBlockTime := 5000;
                  AverageEthereumBlockTime := 0;
                  TargetBatchTimeout := 43200000;
                  BridgeContractAddress := "0xb";
                  BridgeChainID := 1 |};
     events := [] |}.

(** The pool of [poolCtx] with a zero foreign block time. *)
Definition zeroForeignTimePoolCtx : Ctx :=
  with_unbatched (unbatched poolCtx) zeroForeignTimeCtx.

(** An outstanding batch of token 5 with nonce 1 and total fee 3, the
    counter at 1, and the transfers with fees 10 and 7 in the pool. *)
Definition cheapBatchCtx : Ctx :=
  with_lastOutgoingBatchNonce (Some (Uint64ToBigEndian 1))
    (with_outgoingTxs
       (<[(5%N, 1) := OtxBatch (exampleBatch 5%N 1 [exampleSte 5%N 3 3])]> ∅)
       (with_unbatched
          (<[(5%N, 7, 1) := exampleSte 5%N 1 7]>
           (<[(5%N, 10, 2) := exampleSte 5%N 2 10]> ∅))
          freshCtx)).

(** A pool of token 5 with three transfers whose fees are 2^255 - 1 each:
    the sum of two fits in 256 bits, the sum of three does not. *)
Definition hugeFeeCtx : Ctx :=
  with_unbatched
    (<[(5%N, 2 ^ 255 - 1, 1) := exampleSte 5%N 1 (2 ^ 255 - 1)]>
     (<[(5%N, 2 ^ 255 - 1, 2) := exampleSte 5%N 2 (2 ^ 255 - 1)]>
      (<[(5%N, 2 ^ 255 - 1, 3) := exampleSte 5%N 3 (2 ^ 255 - 1)]> ∅)))
    freshCtx.

(** The priority order of the pool scan, on the entries of the pool. *)
Definition poolOrder (x y : N * Z * Z * SendToEthereum) : Prop :=
  poolKey_geb x.1 y.1.

(** The pool scan with its keys. *)
Definition pool_scan_kv (c : Ctx) (contract : Address)
    : list (N * Z * Z * SendToEthereum) :=
  merge_sort (fun x y => poolKey_geb x.1 y.1)
    (filter (fun kv => kv.1.1.1 = contract) (map_to_list (unbatched c))).

(** The context that executing batch (5, 2) leaves in [threeBatchCtx]. *)
Definition executedCtx : Ctx :=
  match BatchTxExecuted 5%N 2 threeBatchCtx with
  | Ok (_, c) => c
  | Panic => threeBatchCtx
  end.

Section MoreNotions.
Context `{codec : AddressCodec} `{lim : SdkIntLimit}.

(** The store invariants that the keeper's own writes maintain: pool entries
    and batches sit under their own keys, and every record under the batch
    prefix is a batch. *)
Definition keeper_wf (c : Ctx) : Prop :=
  pool_well_keyed c /\ store_well_keyed c /\ all_batches c.

(** Every outstanding batch has a nonce in the [uint64] range. *)
Definition nonces_uint64 (c : Ctx) : Prop :=
  forall k b, outgoingTxs c !! k = Some (OtxBatch b) -> 0 <= Nonce b < 2 ^ 64.

(** The nonce counter can be read: its cell is absent or holds at least
    eight bytes. *)
Definition counter_readable (c : Ctx) : Prop :=
  forall bz, lastOutgoingBatchNonce c = Some bz -> (8 <= length bz)%nat.

(** The timeout projection divides by a nonzero foreign block time, or does
    not divide at all because one of the observed heights is zero. *)
Definition timeout_defined (c : Ctx) : Prop :=
  CosmosHeight (lastObserved c) = 0 \/
  EthereumHeight (lastObserved c) = 0 \/
  AverageEthereumBlockTime (params c) <> 0.

(** The fees of a list of transfers are non-negative and their total fits
    an [sdk.Int]. *)
Definition fees_fit (l : list SendToEthereum) : Prop :=
  Forall (fun t => 0 <= Amount (Erc20Fee t)) l /\
  sumFees l < 2 ^ Z.of_N maxBitLen.

End MoreNotions.
(** * Proofs *)

(** ** Byte strings *)

Lemma Z_of_byte_of_Z (z : Z) : Z_of_byte (byte_of_Z z) = z mod 256.
Proof.
  unfold Z_of_byte, byte_of_Z.
  assert (Hr : 0 <= z mod 256 < 256) by (apply Z.mod_pos_bound; lia).
  destruct (Byte.of_N (Z.to_N (z mod 256))) as [b|] eqn:Hb.
  - apply Byte.to_of_N in Hb. simpl. rewrite Hb. lia.
  - apply Byte.of_N_None_iff in Hb. lia.
Qed.

Lemma BigEndianUint64_Uint64ToBigEndian (i : Z) :
  0 <= i < 2 ^ 64 -> BigEndianUint64 (Uint64ToBigEndian i) = Ok i.
Proof.
  intros Hi. unfold BigEndianUint64, Uint64ToBigEndian.
  cbn [map length Nat.ltb Nat.leb take fold_left].
  rewrite !Z_of_byte_of_Z, !Z.shiftr_div_pow2 by lia.
  f_equal. change (2 ^ 64) with 18446744073709551616 in Hi.
  change (2 ^ (8 * 7)) with 72057594037927936.
  change (2 ^ (8 * 6)) with 281474976710656.
  change (2 ^ (8 * 5)) with 1099511627776.
  change (2 ^ (8 * 4)) with 4294967296.
  change (2 ^ (8 * 3)) with 16777216.
  change (2 ^ (8 * 2)) with 65536.
  change (2 ^ (8 * 1)) with 256.
  change (2 ^ (8 * 0)) with 1.
  Z.div_mod_to_equations. lia.
Qed.

(** ** The keeper monad *)

Lemma bind_Ok {A B : Type} (m : M A) (k : A -> M B) (c c' : Ctx) (a : A) :
  m c = Ok (a, c') -> bind m k c = k a c'.
Proof. intros Hm. unfold bind. now rewrite Hm. Qed.

Lemma bind_Panic {A B : Type} (m : M A) (k : A -> M B) (c : Ctx) :
  m c = Panic -> bind m k c = Panic.
Proof. intros Hm. unfold bind. now rewrite Hm. Qed.

(** ** NonceAllocator *)

Lemma wrap64_small (z : Z) : 0 <= z < 2 ^ 64 -> wrap64 z = z.
Proof. intros Hz. unfold wrap64. now apply Z.mod_small. Qed.

Lemma Increment_absent (c : Ctx) :
  lastOutgoingBatchNonce c = None ->
  IncrementLastOutgoingBatchNonce c
  = Ok (1, with_lastOutgoingBatchNonce (Some (Uint64ToBigEndian 1)) c).
Proof.
  intros Habs. unfold IncrementLastOutgoingBatchNonce, bind, get.
  rewrite Habs. reflexivity.
Qed.

Lemma Increment_stored (c : Ctx) (v : Z) :
  0 <= v < 2 ^ 64 ->
  lastOutgoingBatchNonce c = Some (Uint64ToBigEndian v) ->
  IncrementLastOutgoingBatchNonce c
  = Ok (wrap64 (v + 1),
        with_lastOutgoingBatchNonce (Some (Uint64ToBigEndian (wrap64 (v + 1)))) c).
Proof.
  intros Hv Hst. unfold IncrementLastOutgoingBatchNonce, bind, get, lift.
  rewrite Hst, (BigEndianUint64_Uint64ToBigEndian v Hv). reflexivity.
Qed.

Lemma AllocateNth_succ (k : N) :
  AllocateNth (N.succ k) = (AllocateNth k ;;; IncrementLastOutgoingBatchNonce).
Proof. unfold AllocateNth. now rewrite N.iter_succ. Qed.

(** After [k] calls from an absent counter the counter holds [k], as long as
    [k] fits in 64 bits. *)
Lemma AllocateNth_state (c : Ctx) (k : N) :
  lastOutgoingBatchNonce c = None ->
  (k < 2 ^ 64)%N ->
  AllocateNth k c
  = Ok (Z.of_N k,
        if (k =? 0)%N then c
        else with_lastOutgoingBatchNonce (Some (Uint64ToBigEndian (Z.of_N k))) c).
Proof.
  intros Habs. induction k as [|k IH] using N.peano_ind; intros Hk.
  - reflexivity.
  - rewrite AllocateNth_succ.
    assert (Hk' : (k < 2 ^ 64)%N) by lia.
    rewrite (bind_Ok _ _ _ _ _ (IH Hk')).
    assert (Hpow : Z.of_N (2 ^ 64) = 2 ^ 64) by reflexivity.
    assert (Hsucc : wrap64 (Z.of_N k + 1) = Z.of_N (N.succ k))
      by (rewrite wrap64_small; lia).
    destruct (N.eqb_spec (N.succ k) 0) as [E|_]; [lia|].
    destruct (N.eqb_spec k 0) as [->|Hnz].
    + now rewrite (Increment_absent c Habs).
    + rewrite (Increment_stored _ (Z.of_N k)) by (reflexivity || lia).
      now rewrite Hsucc.
Qed.

(** C4 (amended): starting from a context in which the counter key is absent,
    the [k]-th successive call of [IncrementLastOutgoingBatchNonce] returns
    [k] and leaves [k] persisted as the counter, for every [k] from 1 up to
    2^64 - 1; so the returned values are 1, 2, 3, ... without repeats or gaps
    as long as fewer than 2^64 calls have been made. *)
Theorem AllocateNext_counts_from_one (c : Ctx) (k : N) :
  lastOutgoingBatchNonce c = None ->
  (1 <= k < 2 ^ 64)%N ->
  AllocateNth k c
  = Ok (Z.of_N k,
        with_lastOutgoingBatchNonce (Some (Uint64ToBigEndian (Z.of_N k))) c).
Proof.
  intros Habs [Hlo Hhi].
  rewrite (AllocateNth_state c k Habs Hhi).
  destruct (N.eqb_spec k 0) as [E|_]; [lia | reflexivity].
Qed.

Lemma AllocateNext_counts_from_one_witness :
  AllocateNth 3 freshCtx
  = Ok (3, with_lastOutgoingBatchNonce (Some (Uint64ToBigEndian 3)) freshCtx).
Proof.
  apply (AllocateNext_counts_from_one freshCtx 3); [reflexivity | lia].
Defined.

(** C4, as stated, fails at the 2^64-th call: the call before it returns
    2^64 - 1, and it returns 0. *)
Lemma AllocateNext_wraps_to_zero :
  exists c1 c2 : Ctx,
    AllocateNth 18446744073709551615 freshCtx = Ok (18446744073709551615, c1) /\
    AllocateNth 18446744073709551616 freshCtx = Ok (0, c2).
Proof.
  assert (Hprev : AllocateNth 18446744073709551615 freshCtx
                  = Ok (18446744073709551615,
                        with_lastOutgoingBatchNonce
                          (Some (Uint64ToBigEndian 18446744073709551615)) freshCtx)).
  { rewrite (AllocateNth_state freshCtx 18446744073709551615) by (reflexivity || lia).
    reflexivity. }
  eexists; eexists; split; [exact Hprev|].
  change 18446744073709551616%N with (N.succ 18446744073709551615).
  rewrite AllocateNth_succ, (bind_Ok _ _ _ _ _ Hprev).
  rewrite (Increment_stored _ 18446744073709551615) by (reflexivity || lia).
  reflexivity.
Qed.

(** ** TimeoutProjector *)

(** C3 (amended): when both observed heights are nonzero, the foreign block
    time is nonzero, the current home height is not below the observed home
    height, and neither the elapsed milliseconds nor the result exceed
    2^64 - 1, [getBatchTimeoutHeight] returns
    observedForeign + floor((current - observedHome) * homeBlockTime
    / foreignBlockTime) + floor(targetTimeout / foreignBlockTime), and changes
    nothing. *)
Theorem ProjectTimeout_formula (c : Ctx) :
  0 < CosmosHeight (lastObserved c) <= BlockHeight c ->
  0 < EthereumHeight (lastObserved c) ->
  0 < AverageEthereumBlockTime (params c) ->
  0 <= AverageBlockTime (params c) ->
  0 <= TargetBatchTimeout (params c) ->
  BlockHeight c < 2 ^ 63 ->
  (BlockHeight c - CosmosHeight (lastObserved c)) * AverageBlockTime (params c) < 2 ^ 64 ->
  projectedTimeout c < 2 ^ 64 ->
  getBatchTimeoutHeight c = Ok (projectedTimeout c, c).
Proof.
  intros [Hc Hcb] He Hf Hb Ht Hh Hmul Hres.
  unfold projectedTimeout in *.
  set (elapsed := BlockHeight c - CosmosHeight (lastObserved c)) in *.
  set (millis := elapsed * AverageBlockTime (params c)) in *.
  assert (Hm0 : 0 <= millis) by (subst millis elapsed; nia).
  assert (Hq0 : 0 <= millis / AverageEthereumBlockTime (params c))
    by (apply Z.div_pos; lia).
  assert (Hd0 : 0 <= TargetBatchTimeout (params c) / AverageEthereumBlockTime (params c))
    by (apply Z.div_pos; lia).
  unfold getBatchTimeoutHeight, bind, get, udiv, uint64_of_int64.
  destruct (Z.eqb_spec (CosmosHeight (lastObserved c)) 0) as [E|_]; [lia|].
  destruct (Z.eqb_spec (EthereumHeight (lastObserved c)) 0) as [E|_]; [lia|].
  destruct (Z.eqb_spec (AverageEthereumBlockTime (params c)) 0) as [E|_]; [lia|].
  cbn [orb]. unfold ret.
  rewrite (wrap64_small (BlockHeight c)) by lia.
  fold elapsed. rewrite (wrap64_small elapsed) by (subst elapsed; lia).
  fold millis. rewrite (wrap64_small millis) by lia.
  rewrite (wrap64_small (millis / _ + _)) by lia.
  rewrite wrap64_small by lia.
  do 2 f_equal. lia.
Qed.

(** The spec's example: observed pair (100, 1000), home height 160, block
    times 5000 ms and 15000 ms, target 43200000 ms give 3900. *)
Lemma ProjectTimeout_formula_witness :
  getBatchTimeoutHeight freshCtx = Ok (3900, freshCtx).
Proof.
  apply (ProjectTimeout_formula freshCtx);
    vm_compute; repeat split; (reflexivity || discriminate).
Defined.

(** C3, as stated, fails when the current home height (50) is below the
    observed one (100): the unsigned difference wraps around. *)
Lemma ProjectTimeout_wraps_below_observed :
  EthereumHeight (lastObserved behindCtx) <> 0 /\
  CosmosHeight (lastObserved behindCtx) <> 0 /\
  projectedTimeout behindCtx = 3863 /\
  getBatchTimeoutHeight behindCtx
  = Ok (1229782938251166, behindCtx).
Proof. repeat split; (discriminate || reflexivity). Qed.

(** C6: whenever either component of the last observed pair is 0,
    [getBatchTimeoutHeight] returns 0, whatever the current height, and the
    context it returns is the one it was given. *)
Theorem ProjectTimeout_zero_sentinel (c : Ctx) :
  CosmosHeight (lastObserved c) = 0 \/ EthereumHeight (lastObserved c) = 0 ->
  getBatchTimeoutHeight c = Ok (0, c).
Proof.
  intros Hz. unfold getBatchTimeoutHeight, bind, get.
  destruct Hz as [-> | ->]; cbn [Z.eqb orb]; [reflexivity|].
  now rewrite orb_true_r.
Qed.

Lemma ProjectTimeout_zero_sentinel_witness :
  getBatchTimeoutHeight neverObservedCtx = Ok (0, neverObservedCtx).
Proof.
  apply (ProjectTimeout_zero_sentinel neverObservedCtx). left. reflexivity.
Defined.

(** ** Scans *)

Section LifecycleFacts.
Context `{codec : AddressCodec} `{lim : SdkIntLimit}.

Lemma outgoing_scan_elem (c : Ctx) (k : BatchKey) (otx : OutgoingTx) :
  (k, otx) ∈ outgoing_scan c <-> outgoingTxs c !! k = Some otx.
Proof.
  unfold outgoing_scan. rewrite merge_sort_Permutation.
  apply elem_of_map_to_list.
Qed.

(** ** GetLastOutgoingBatchByTokenType *)

Lemma lastBatchVisitor_batch (T : Address) (k : BatchKey) (b : BatchTx)
    (acc : option BatchTx * Z) (c : Ctx) :
  lastBatchVisitor T (k, OtxBatch b) acc c
  = Ok ((if bool_decide (HexToAddress (TokenContract b) = T) && (acc.2 <? Nonce b)
         then (Some b, Nonce b) else acc, false), c).
Proof.
  unfold lastBatchVisitor, bind, deref, ret. cbn.
  destruct (bool_decide _); cbn; [|reflexivity].
  now destruct (acc.2 <? Nonce b).
Qed.

Lemma visit_lastBatchVisitor (T : Address) (l : list (BatchKey * OutgoingTx)) :
  forall (lb : option BatchTx) (ln : Z) (c : Ctx),
    (forall k otx, (k, otx) ∈ l -> exists b, otx = OtxBatch b /\ 0 <= Nonce b) ->
    (forall b, lb = Some b -> Nonce b = ln /\ 0 < ln) ->
    (lb = None -> ln = 0) ->
    exists lb' ln',
      visit (lastBatchVisitor T) l (lb, ln) c = Ok ((lb', ln'), c) /\
      (forall b, lb' = Some b ->
         Nonce b = ln' /\ 0 < ln' /\
         (lb = Some b \/
          (HexToAddress (TokenContract b) = T /\ exists k, (k, OtxBatch b) ∈ l))) /\
      (lb' = None -> ln' = 0) /\
      ln <= ln' /\
      (forall k b, (k, OtxBatch b) ∈ l ->
         HexToAddress (TokenContract b) = T -> Nonce b <= ln').
Proof.
  induction l as [|[k otx] l IH]; intros lb ln c Hall Hlb Hnone.
  - exists lb, ln. cbn. split_and!.
    + reflexivity.
    + intros b Hb. destruct (Hlb b Hb). split_and!; [done | done | now left].
    + exact Hnone.
    + lia.
    + intros k b Hin. now apply elem_of_nil in Hin.
  - destruct (Hall k otx) as (b & -> & Hb); [left|].
    cbn [visit]. unfold bind at 1. rewrite lastBatchVisitor_batch. cbn [fst snd].
    set (acc' := if bool_decide (HexToAddress (TokenContract b) = T) && (ln <? Nonce b)
                 then (Some b, Nonce b) else (lb, ln)).
    assert (Hln : 0 <= ln).
    { destruct lb as [b1|];
        [destruct (Hlb b1 eq_refl) | specialize (Hnone eq_refl)]; lia. }
    assert (Hstep : ln <= acc'.2 /\
                    (HexToAddress (TokenContract b) = T -> Nonce b <= acc'.2) /\
                    (forall b0, acc'.1 = Some b0 ->
                       Nonce b0 = acc'.2 /\ 0 < acc'.2 /\
                       (lb = Some b0 \/ (HexToAddress (TokenContract b0) = T /\ b0 = b))) /\
                    (acc'.1 = None -> acc'.2 = 0)).
    { subst acc'. destruct (bool_decide _ && _) eqn:E; cbn.
      - apply andb_prop in E as [E1 E2].
        apply bool_decide_eq_true in E1. apply Z.ltb_lt in E2.
        split_and!; [lia | lia | | discriminate].
        intros b0 [= <-]. split_and!; [done | lia | now right].
      - assert (Hcase : HexToAddress (TokenContract b) = T -> Nonce b <= ln).
        { intros HT. apply andb_false_iff in E as [E | E].
          - now apply bool_decide_eq_false in E.
          - now apply Z.ltb_ge in E. }
        split_and!; [lia | exact Hcase | | exact Hnone].
        intros b0 Hb0. destruct (Hlb b0 Hb0). split_and!; [done | done | now left]. }
    destruct Hstep as (Hs1 & Hs2 & Hs3 & Hs4).
    destruct (IH acc'.1 acc'.2 c) as (lb' & ln' & Hrun & Hsome & Hnone' & Hle & Hmax).
    + intros k' otx' Hin. apply (Hall k' otx'). now right.
    + intros b0 Hb0. destruct (Hs3 b0 Hb0) as (? & ? & _). now split.
    + exact Hs4.
    + exists lb', ln'. rewrite <- surjective_pairing in Hrun. split_and!.
      * exact Hrun.
      * intros b0 Hb0.
        destruct (Hsome b0 Hb0) as (Hn & Hpos & [Hacc | (HT & k' & Hin)]).
        -- split_and!; [done | done |].
           destruct (Hs3 b0 Hacc) as (_ & _ & [?|(HT & ->)]); [now left|].
           right. split; [exact HT|]. exists k. now left.
        -- split_and!; [done | done |].
           right. split; [exact HT|]. exists k'. now right.
      * exact Hnone'.
      * lia.
      * intros k' b' Hin HT. apply elem_of_cons in Hin as [Heq | Hin].
        -- injection Heq as -> ->. specialize (Hs2 HT). lia.
        -- now apply (Hmax k' b').
Qed.

(** C9 (amended): in a store whose batch records all decode,
    [GetLastOutgoingBatchByTokenType T] changes nothing; when it returns a
    batch, that batch is an outstanding batch of [T] with a nonzero nonce
    that is maximal among the outstanding batches of [T]; it returns none
    exactly when no outstanding batch of [T] has a nonzero nonce. *)
Theorem GetCurrentBatch_highest_nonce (c : Ctx) (T : Address) :
  all_batches c ->
  exists r : option BatchTx,
    GetLastOutgoingBatchByTokenType T c = Ok (r, c) /\
    (forall b, r = Some b ->
       outstanding c T b /\ 0 < Nonce b /\
       forall b', outstanding c T b' -> Nonce b' <= Nonce b) /\
    (r = None <-> forall b', outstanding c T b' -> Nonce b' = 0).
Proof.
  intros Hall.
  destruct (visit_lastBatchVisitor T (outgoing_scan c) None 0 c)
    as (lb & ln & Hrun & Hsome & Hnone & _ & Hmax).
  - intros k otx Hin. apply (Hall k). now apply outgoing_scan_elem.
  - discriminate.
  - reflexivity.
  - assert (Hbound : forall b', outstanding c T b' -> 0 <= Nonce b' <= ln).
    { intros b' [[k Hk] HT]. split.
      - destruct (Hall k _ Hk) as (b0 & [= <-] & H0). exact H0.
      - apply (Hmax k b'); [now apply outgoing_scan_elem | exact HT]. }
    exists lb. split; [|split].
    + unfold GetLastOutgoingBatchByTokenType, IterateOutgoingTxs.
      unfold bind at 1. unfold bind at 1. unfold get at 1. now rewrite Hrun.
    + intros b ->. destruct (Hsome b eq_refl) as (Hn & Hpos & [?|(HT & k & Hin)]);
        [discriminate|].
      split; [|split].
      * split; [exists k; now apply outgoing_scan_elem | exact HT].
      * lia.
      * intros b' Hb'. specialize (Hbound b' Hb'). lia.
    + split.
      * intros ->. intros b' Hb'. specialize (Hnone eq_refl).
        specialize (Hbound b' Hb'). lia.
      * intros Hzero. destruct lb as [b|]; [|reflexivity].
        destruct (Hsome b eq_refl) as (Hn & Hpos & [?|(HT & k & Hin)]);
          [discriminate|].
        assert (Nonce b = 0); [|lia].
        apply Hzero. split; [exists k; now apply outgoing_scan_elem | exact HT].
Qed.

End LifecycleFacts.

Lemma all_batches_threeBatchCtx : all_batches threeBatchCtx.
Proof.
  intros k otx Hk. cbn in Hk.
  repeat (apply lookup_insert_Some in Hk as [[<- <-] | [_ Hk]];
          [eexists; split; [reflexivity | cbn; lia] |]).
  now rewrite lookup_empty in Hk.
Qed.

Lemma GetCurrentBatch_highest_nonce_witness :
  exists r : option BatchTx,
    GetLastOutgoingBatchByTokenType 5%N threeBatchCtx = Ok (r, threeBatchCtx) /\
    (forall b, r = Some b ->
       outstanding threeBatchCtx 5%N b /\ 0 < Nonce b /\
       forall b', outstanding threeBatchCtx 5%N b' -> Nonce b' <= Nonce b) /\
    (r = None <-> forall b', outstanding threeBatchCtx 5%N b' -> Nonce b' = 0).
Proof.
  apply (GetCurrentBatch_highest_nonce threeBatchCtx 5%N).
  exact all_batches_threeBatchCtx.
Defined.

(** C9, as stated, fails for a batch with nonce 0: it is outstanding for
    token 5 and yet the scan returns none. *)
Lemma GetCurrentBatch_misses_nonce_zero :
  outstanding zeroNonceCtx 5%N (exampleBatch 5%N 0 []) /\
  GetLastOutgoingBatchByTokenType 5%N zeroNonceCtx = Ok (None, zeroNonceCtx).
Proof.
  split.
  - split; [exists (5%N, 0); reflexivity | reflexivity].
  - vm_compute. reflexivity.
Qed.

(** ** The unbatched pool: fee evaluation and selection *)

Lemma visited_zero_limit {A : Type} (xs : list A) :
  forall seen : Z, 0 <= seen -> visited 0 seen xs = xs.
Proof.
  induction xs as [|x xs IH]; intros seen Hseen; [reflexivity|].
  cbn [visited]. destruct (Z.eqb_spec (seen + 1) 0) as [E|_]; [lia|].
  rewrite IH by lia. reflexivity.
Qed.

Lemma fold_left_fee_shift (l : list SendToEthereum) (a : Z) :
  fold_left (fun sum t => sum + Amount (Erc20Fee t)) l a = a + sumFees l.
Proof.
  unfold sumFees. revert a. induction l as [|t l IH]; intros a; cbn; [lia|].
  rewrite (IH (a + _)), (IH (0 + _)). lia.
Qed.

Lemma sumFees_cons (t : SendToEthereum) (l : list SendToEthereum) :
  sumFees (t :: l) = Amount (Erc20Fee t) + sumFees l.
Proof. unfold sumFees at 1. cbn. now rewrite fold_left_fee_shift. Qed.

Section BuilderFacts.
Context `{codec : AddressCodec} `{lim : SdkIntLimit}.

Lemma sumFees_nonneg (l : list SendToEthereum) :
  Forall (fun t => 0 <= Amount (Erc20Fee t)) l -> 0 <= sumFees l.
Proof.
  induction 1 as [|t l Ht _ IH]; [unfold sumFees; cbn; lia|].
  rewrite sumFees_cons. lia.
Qed.

Lemma limit_pos : 0 < 2 ^ Z.of_N maxBitLen.
Proof. apply Z.pow_pos_nonneg; lia. Qed.

(** A running total that comes out is the plain sum. *)
Lemma addFees_Ok (l : list SendToEthereum) :
  forall a s : Z, addFees a l = Ok s -> s = a + sumFees l.
Proof.
  induction l as [|t l IH]; intros a s; cbn [addFees].
  - intros [= <-]. unfold sumFees. cbn. lia.
  - unfold Int_Add. destruct (Z.abs _ <? _); [|discriminate].
    intros ->%IH. rewrite sumFees_cons. lia.
Qed.

(** With non-negative fees the running total overflows exactly when the
    plain sum does. *)
Lemma addFees_nonneg (l : list SendToEthereum) :
  forall a : Z,
    0 <= a < 2 ^ Z.of_N maxBitLen ->
    Forall (fun t => 0 <= Amount (Erc20Fee t)) l ->
    addFees a l
    = if a + sumFees l <? 2 ^ Z.of_N maxBitLen then Ok (a + sumFees l) else Panic.
Proof.
  induction l as [|t l IH]; intros a Ha Hl; cbn [addFees].
  - unfold sumFees. cbn. rewrite Z.add_0_r.
    destruct (Z.ltb_spec a (2 ^ Z.of_N maxBitLen)); [reflexivity | lia].
  - apply Forall_cons in Hl as [Ht Hl]. pose proof (sumFees_nonneg l Hl) as Hs.
    rewrite sumFees_cons. unfold Int_Add.
    rewrite Z.abs_eq by lia.
    destruct (Z.ltb_spec (a + Amount (Erc20Fee t)) (2 ^ Z.of_N maxBitLen)) as [Hlt|Hge].
    + rewrite IH by (try split; try lia; exact Hl).
      now replace (a + Amount (Erc20Fee t) + sumFees l)
        with (a + (Amount (Erc20Fee t) + sumFees l)) by lia.
    + destruct (Z.ltb_spec (a + (Amount (Erc20Fee t) + sumFees l))
                  (2 ^ Z.of_N maxBitLen)); [lia | reflexivity].
Qed.

Lemma visit_feeVisitor (n : Z) (l : list SendToEthereum) :
  forall (fee i : Z) (c : Ctx),
    visit (feeVisitor n) l (fee, i) c
    = match addFees fee (visited n i l) with
      | Ok sum => Ok ((sum, i + Z.of_nat (length (visited n i l))), c)
      | Panic => Panic
      end.
Proof.
  induction l as [|t l IH]; intros fee i c.
  - cbn. unfold ret. do 3 f_equal; lia.
  - cbn [visit visited addFees]. unfold bind at 1. unfold feeVisitor at 1.
    unfold bind at 1, lift at 1. cbn [fst snd].
    destruct (Int_Add fee (Amount (Erc20Fee t))) as [sum|]; [|reflexivity].
    unfold ret at 1. cbn [fst snd].
    destruct (Z.eqb_spec (i + 1) n) as [E|E].
    + unfold ret. cbn [addFees length]. do 3 f_equal; lia.
    + rewrite IH. cbn [length].
      destruct (addFees sum (visited n (i + 1) l)); [|reflexivity].
      do 3 f_equal; lia.
Qed.

(** [GetBatchFeesByTokenType] is read-only; it returns the running total of
    the entries it visits and panics when that total overflows. *)
Lemma GetBatchFeesByTokenType_eq (T : Address) (n : Z) (c : Ctx) :
  GetBatchFeesByTokenType T n c
  = match addFees 0 (visited n 0 (pool_scan c T)) with
    | Ok fees => Ok (fees, c)
    | Panic => Panic
    end.
Proof.
  unfold GetBatchFeesByTokenType, IterateUnbatchedSendToEthereumsByContract.
  unfold bind at 1. unfold bind at 1. unfold get at 1.
  rewrite visit_feeVisitor.
  now destruct (addFees 0 (visited n 0 (pool_scan c T))).
Qed.

Lemma GetBatchFeesByTokenType_Ok (T : Address) (n : Z) (c c' : Ctx) (fees : Z) :
  GetBatchFeesByTokenType T n c = Ok (fees, c') ->
  fees = sumFees (visited n 0 (pool_scan c T)) /\ c' = c.
Proof.
  rewrite GetBatchFeesByTokenType_eq.
  destruct (addFees 0 (visited n 0 (pool_scan c T))) as [s|] eqn:E; [|discriminate].
  intros [= <- <-]. split; [|reflexivity]. now apply addFees_Ok in E.
Qed.

Lemma GetBatchFeesByTokenType_fit (T : Address) (n : Z) (c : Ctx) :
  fees_fit (visited n 0 (pool_scan c T)) ->
  GetBatchFeesByTokenType T n c = Ok (sumFees (visited n 0 (pool_scan c T)), c).
Proof.
  intros [Hnn Hlt]. rewrite GetBatchFeesByTokenType_eq.
  rewrite addFees_nonneg by (try split; try lia; try exact Hnn; apply limit_pos).
  rewrite Z.add_0_l.
  destruct (Z.ltb_spec (sumFees (visited n 0 (pool_scan c T)))
              (2 ^ Z.of_N maxBitLen)); [reflexivity | lia].
Qed.

Lemma visit_selectVisitor (n : Z) (l : list SendToEthereum) :
  forall (sel : list SendToEthereum) (c : Ctx),
    visit (selectVisitor n) l sel c
    = Ok (sel ++ visited n (Z.of_nat (length sel)) l,
          with_unbatched
            (drain (visited n (Z.of_nat (length sel)) l) (unbatched c)) c).
Proof.
  induction l as [|t l IH]; intros sel c.
  - cbn. unfold ret. rewrite app_nil_r. now destruct c.
  - cbn [visit visited]. unfold bind at 1. unfold selectVisitor at 1.
    unfold bind at 1, DeleteUnbatchedSendToEthereum, modify, ret at 1.
    cbn [fst snd]. rewrite length_app. cbn [length].
    replace (Z.of_nat (length sel + 1)) with (Z.of_nat (length sel) + 1) by lia.
    destruct (Z.eqb_spec (Z.of_nat (length sel) + 1) n) as [E|E].
    + reflexivity.
    + rewrite IH, length_app. cbn [length].
      replace (Z.of_nat (length sel + 1)) with (Z.of_nat (length sel) + 1) by lia.
      rewrite <- app_assoc. reflexivity.
Qed.

(** The nonce allocation reads and writes the counter cell only. *)
Lemma Increment_frame (c c' : Ctx) :
  lastOutgoingBatchNonce c' = lastOutgoingBatchNonce c ->
  IncrementLastOutgoingBatchNonce c'
  = match IncrementLastOutgoingBatchNonce c with
    | Ok (nonce, _) =>
        Ok (nonce, with_lastOutgoingBatchNonce (Some (Uint64ToBigEndian nonce)) c')
    | Panic => Panic
    end.
Proof.
  unfold IncrementLastOutgoingBatchNonce, bind, get, lift, modify, ret.
  intros ->. destruct (lastOutgoingBatchNonce c) as [bz|]; [|reflexivity].
  now destruct (BigEndianUint64 bz).
Qed.

(** The timeout projection reads the height, the observed pair and the
    parameters, and writes nothing. *)
Lemma getBatchTimeoutHeight_frame (c c' : Ctx) :
  BlockHeight c' = BlockHeight c ->
  lastObserved c' = lastObserved c ->
  params c' = params c ->
  getBatchTimeoutHeight c'
  = match getBatchTimeoutHeight c with
    | Ok (t, _) => Ok (t, c')
    | Panic => Panic
    end.
Proof.
  unfold getBatchTimeoutHeight, bind, get, udiv, panic, ret.
  intros -> -> ->.
  destruct (_ || _); [reflexivity|].
  now destruct (_ =? 0).
Qed.

(** [BuildBatchTx], step by step, once the scan for the current batch has
    returned [last]; the fee evaluation runs only when there is a current
    batch. *)
Lemma BuildBatchTx_run (c : Ctx) (T : Address) (n : Z) (last : option BatchTx) :
  GetLastOutgoingBatchByTokenType T c = Ok (last, c) ->
  BuildBatchTx T n c
  = match (match last with
           | Some _ => GetBatchFeesByTokenType T n c
           | None => Ok (0, c)
           end) with
    | Panic => Panic
    | Ok (fees, _) =>
        if guardAborts last fees
        then Ok (None, c)
        else
          match IncrementLastOutgoingBatchNonce c, getBatchTimeoutHeight c with
          | Ok (nonce, _), Ok (timeout, _) =>
              Ok (Some (builtBatch c T (visited n 0 (pool_scan c T)) nonce timeout),
                  builtCtx c T (visited n 0 (pool_scan c T)) nonce timeout)
          | _, _ => Panic
          end
    end.
Proof.
  intros Hlast. unfold BuildBatchTx.
  rewrite (bind_Ok _ _ _ _ _ Hlast).
  assert (Hguard :
    match last with
    | Some lb => fees <- GetBatchFeesByTokenType T n ;; ret (GetFees lb >=? fees)
    | None => ret false
    end c
    = match (match last with
             | Some _ => GetBatchFeesByTokenType T n c
             | None => Ok (0, c)
             end) with
      | Panic => Panic
      | Ok (fees, _) => Ok (guardAborts last fees, c)
      end).
  { destruct last as [lb|]; [|reflexivity].
    unfold bind at 1.
    destruct (GetBatchFeesByTokenType T n c) as [[fees c0]|] eqn:E; [|reflexivity].
    apply GetBatchFeesByTokenType_Ok in E as [_ ->]. reflexivity. }
  unfold bind at 1. rewrite Hguard. clear Hguard.
  destruct (match last with
            | Some _ => GetBatchFeesByTokenType T n c
            | None => Ok (0, c)
            end) as [[fees c0]|]; [|reflexivity].
  cbn [fst snd].
  destruct (guardAborts last fees); [reflexivity|].
  unfold IterateUnbatchedSendToEthereumsByContract.
  unfold bind at 1. unfold bind at 1. unfold get at 1.
  rewrite visit_selectVisitor. cbn [app length]. change (Z.of_nat 0) with 0.
  set (sel := visited n 0 (pool_scan c T)).
  unfold bind at 1.
  rewrite (Increment_frame c (with_unbatched (drain sel (unbatched c)) c) eq_refl).
  destruct (IncrementLastOutgoingBatchNonce c) as [[nonce c1]|]; [|reflexivity].
  unfold bind at 1.
  rewrite (getBatchTimeoutHeight_frame c
             (with_lastOutgoingBatchNonce (Some (Uint64ToBigEndian nonce))
                (with_unbatched (drain sel (unbatched c)) c))
             eq_refl eq_refl eq_refl).
  destruct (getBatchTimeoutHeight c) as [[timeout c2]|]; [|reflexivity].
  unfold bind, get, SetOutgoingTx, EmitEvent, modify, ret.
  unfold GetStoreIndex, MakeBatchTxKey. cbn [TokenContract Nonce].
  rewrite HexToAddress_Hex. reflexivity.
Qed.

(** The same, once the fee evaluation has returned [fees]. *)
Lemma BuildBatchTx_run_fees (c : Ctx) (T : Address) (n : Z)
    (last : option BatchTx) (fees : Z) :
  GetLastOutgoingBatchByTokenType T c = Ok (last, c) ->
  GetBatchFeesByTokenType T n c = Ok (fees, c) ->
  BuildBatchTx T n c
  = if guardAborts last fees
    then Ok (None, c)
    else
      match IncrementLastOutgoingBatchNonce c, getBatchTimeoutHeight c with
      | Ok (nonce, _), Ok (timeout, _) =>
          Ok (Some (builtBatch c T (visited n 0 (pool_scan c T)) nonce timeout),
              builtCtx c T (visited n 0 (pool_scan c T)) nonce timeout)
      | _, _ => Panic
      end.
Proof.
  intros Hlast Hfees. rewrite (BuildBatchTx_run c T n last Hlast).
  destruct last as [lb|]; [now rewrite Hfees | reflexivity].
Qed.

(** A call that returns went through a guard that did not abort on the
    plain fee total, or aborted and changed nothing. *)
Lemma BuildBatchTx_run_Ok (c c' : Ctx) (T : Address) (n : Z)
    (last r : option BatchTx) :
  GetLastOutgoingBatchByTokenType T c = Ok (last, c) ->
  BuildBatchTx T n c = Ok (r, c') ->
  (if guardAborts last (sumFees (visited n 0 (pool_scan c T)))
   then Ok (None, c)
   else
     match IncrementLastOutgoingBatchNonce c, getBatchTimeoutHeight c with
     | Ok (nonce, _), Ok (timeout, _) =>
         Ok (Some (builtBatch c T (visited n 0 (pool_scan c T)) nonce timeout),
             builtCtx c T (visited n 0 (pool_scan c T)) nonce timeout)
     | _, _ => Panic
     end) = Ok (r, c').
Proof.
  intros Hlast. rewrite (BuildBatchTx_run c T n last Hlast).
  destruct last as [lb|]; [|exact (fun H => H)].
  destruct (GetBatchFeesByTokenType T n c) as [[fees c0]|] eqn:E; [|discriminate].
  apply GetBatchFeesByTokenType_Ok in E as [-> _]. exact (fun H => H).
Qed.

End BuilderFacts.

Section PoolFacts.
Context `{codec : AddressCodec} `{lim : SdkIntLimit}.

Lemma pool_scan_elem (c : Ctx) (T : Address) (ste : SendToEthereum) :
  ste ∈ pool_scan c T <->
  exists k, unbatched c !! k = Some ste /\ k.1.1 = T.
Proof.
  unfold pool_scan. rewrite list_elem_of_fmap. split.
  - intros ([k v] & -> & Hin). rewrite merge_sort_Permutation in Hin.
    apply list_elem_of_filter in Hin as [HT Hin].
    apply elem_of_map_to_list in Hin. now exists k.
  - intros (k & Hk & HT). exists (k, ste). split; [reflexivity|].
    rewrite merge_sort_Permutation. apply list_elem_of_filter.
    split; [exact HT|]. now apply elem_of_map_to_list.
Qed.

Lemma pool_scan_empty (c : Ctx) (T : Address) :
  pool_empty c T <-> pool_scan c T = [].
Proof.
  split.
  - intros Hempty. destruct (pool_scan c T) as [|ste l] eqn:E; [reflexivity|].
    assert (Hin : ste ∈ pool_scan c T) by (rewrite E; left).
    apply pool_scan_elem in Hin as (k & Hk & HT). now destruct (Hempty k ste Hk).
  - intros Hnil k ste Hk HT.
    assert (Hin : ste ∈ pool_scan c T) by (apply pool_scan_elem; eauto).
    rewrite Hnil in Hin. now apply elem_of_nil in Hin.
Qed.

Lemma lookup_drain_Some (l : list SendToEthereum)
    (m : gmap (Address * Z * Z) SendToEthereum) (k : PoolKey) (v : SendToEthereum) :
  drain l m !! k = Some v -> m !! k = Some v.
Proof.
  revert m. induction l as [|t l IH]; intros m; cbn; [done|].
  intros H%IH. now apply lookup_delete_Some in H as [_ H].
Qed.

Lemma lookup_drain_elem (l : list SendToEthereum)
    (m : gmap (Address * Z * Z) SendToEthereum) (t : SendToEthereum) :
  t ∈ l -> drain l m !! steKey t = None.
Proof.
  revert m. induction l as [|t' l IH]; intros m Hin.
  - now apply elem_of_nil in Hin.
  - cbn. apply elem_of_cons in Hin as [Heq | Hin]; [subst t' | now apply IH].
    set (k := steKey t).
    change (drain l (delete k m) !! k = None).
    destruct (drain l (delete k m) !! k) as [v|] eqn:E; [|reflexivity].
    apply lookup_drain_Some in E. now rewrite lookup_delete_eq in E.
Qed.

End PoolFacts.

Lemma pool_empty_freshCtx (T : Address) : pool_empty freshCtx T.
Proof. intros k ste Hk. cbn in Hk. now rewrite lookup_empty in Hk. Qed.

(** Example, end to end: with fees 10, 7 and 3 in the pool,
    [BuildBatchTx] with limit 2 takes the transfers with fees 10 and 7, in
    that order, under nonce 1, and leaves the one with fee 3. *)
Example BuildBatch_end_to_end :
  exists c',
    BuildBatchTx 5%N 2 poolCtx
    = Ok (Some {| Nonce := 1; Timeout := 3900;
                  Transactions := [exampleSte 5%N 2 10; exampleSte 5%N 1 7];
                  TokenContract := plainHex 5%N; Height := 160 |}, c') /\
    pool_scan c' 5%N = [exampleSte 5%N 3 3] /\
    GetBatchFeesByTokenType 5%N 2 poolCtx = Ok (17, poolCtx).
Proof. eexists. split_and!; vm_compute; reflexivity. Qed.

(** ** CancelBatchTx *)

Section CancelFacts.
Context `{codec : AddressCodec} `{lim : SdkIntLimit}.

Lemma forEach_SetUnbatchedSendToEthereum (l : list SendToEthereum) :
  forall c : Ctx,
    forEach SetUnbatchedSendToEthereum l c
    = Ok (tt, with_unbatched (requeue l (unbatched c)) c).
Proof.
  induction l as [|t l IH]; intros c.
  - cbn. unfold ret. now destruct c.
  - cbn [forEach]. unfold bind, SetUnbatchedSendToEthereum at 1, modify.
    rewrite IH. reflexivity.
Qed.

Lemma lookup_requeue_other (l : list SendToEthereum)
    (m : gmap (Address * Z * Z) SendToEthereum) (k : PoolKey) :
  (forall t, t ∈ l -> k <> steKey t) -> requeue l m !! k = m !! k.
Proof.
  revert m. induction l as [|t l IH]; intros m Hk; [reflexivity|].
  change (requeue (t :: l) m) with (requeue l (<[steKey t := t]> m)).
  rewrite IH by (intros t' Ht'; apply Hk; now right).
  apply lookup_insert_ne. intros E. apply (Hk t); [left | now symmetry].
Qed.

Lemma lookup_requeue_elem (l : list SendToEthereum)
    (m : gmap (Address * Z * Z) SendToEthereum) (t : SendToEthereum) :
  members_distinct l -> t ∈ l -> requeue l m !! steKey t = Some t.
Proof.
  revert m. induction l as [|t0 l IH]; intros m Hdist Hin.
  - now apply elem_of_nil in Hin.
  - assert (Hdist' : members_distinct l).
    { intros a b Ha Hb. apply Hdist; now right. }
    change (requeue (t0 :: l) m) with (requeue l (<[steKey t0 := t0]> m)).
    destruct (decide (steKey t ∈ steKey <$> l)) as [Hk | Hk].
    + apply list_elem_of_fmap in Hk as (t' & Hkey & Ht').
      assert (t = t') as <-.
      { apply Hdist; [exact Hin | now right | exact Hkey]. }
      now apply IH.
    + apply elem_of_cons in Hin as [-> | Hin].
      * rewrite lookup_requeue_other; [apply lookup_insert_eq|].
        intros t' Ht' E. apply Hk. apply list_elem_of_fmap. now exists t'.
      * destruct Hk. apply list_elem_of_fmap. now exists t.
Qed.

Lemma CancelBatchTx_run (c : Ctx) (T : Address) (k : Z) (b : BatchTx) :
  outgoingTxs c !! (T, k) = Some (OtxBatch b) ->
  CancelBatchTx T k c
  = Ok (tt, cancelledCtx c k b).
Proof.
  intros Hb. unfold CancelBatchTx, GetOutgoingTx, MakeBatchTxKey.
  unfold bind at 1. unfold bind at 1. unfold get at 1, ret at 1. cbn beta iota.
  rewrite Hb. cbn [asBatchTx deref].
  unfold bind at 1. unfold ret at 1.
  unfold bind at 1. rewrite forEach_SetUnbatchedSendToEthereum.
  reflexivity.
Qed.

(** C5: for a batch stored under its own key (T, k) whose members are
    distinct transfers with fee contract [T], [CancelBatchTx T k] puts every
    member back into the pool of [T] under its fee and id, field for field as
    the batch held it, deletes the record at (T, k), emits the cancellation
    event, and changes no other batch, no other pool entry and nothing
    else. *)
Theorem CancelBatch_requeues_members (c : Ctx) (T : Address) (k : Z) (b : BatchTx) :
  outgoingTxs c !! (T, k) = Some (OtxBatch b) ->
  GetStoreIndex b = (T, k) ->
  members_distinct (Transactions b) ->
  (forall tx, tx ∈ Transactions b -> HexToAddress (Contract (Erc20Fee tx)) = T) ->
  exists c',
    CancelBatchTx T k c = Ok (tt, c') /\
    (forall tx, tx ∈ Transactions b ->
       unbatched c' !! (T, Amount (Erc20Fee tx), Id tx) = Some tx) /\
    outgoingTxs c' = delete (T, k) (outgoingTxs c) /\
    (forall pk, (forall tx, tx ∈ Transactions b -> pk <> steKey tx) ->
       unbatched c' !! pk = unbatched c !! pk) /\
    lastOutgoingBatchNonce c' = lastOutgoingBatchNonce c /\
    lastObserved c' = lastObserved c /\
    params c' = params c /\
    BlockHeight c' = BlockHeight c /\
    events c'
    = events c ++ [{| evType := EventTypeOutgoingBatchCanceled;
                      evContract := BridgeContractAddress (params c);
                      evBridgeChainID := BridgeChainID (params c);
                      evNonce := k |}].
Proof.
  intros Hb Hidx Hdist Hfee.
  eexists. split; [apply (CancelBatchTx_run c T k b Hb)|].
  unfold cancelledCtx.
  cbn [unbatched outgoingTxs lastOutgoingBatchNonce lastObserved params
       BlockHeight events with_events with_outgoingTxs with_unbatched].
  split_and!; try reflexivity.
  - intros tx Htx. rewrite <- (Hfee tx Htx).
    now apply (lookup_requeue_elem (Transactions b) (unbatched c) tx).
  - now rewrite Hidx.
  - intros pk Hpk. now apply lookup_requeue_other.
Qed.

End CancelFacts.

Lemma members_distinct_example :
  members_distinct [exampleSte 5%N 2 10; exampleSte 5%N 1 7].
Proof.
  intros t t' Ht Ht' Hk.
  apply elem_of_cons in Ht as [-> | Ht];
    [|apply elem_of_cons in Ht as [-> | Ht]; [|now apply elem_of_nil in Ht]];
    (apply elem_of_cons in Ht' as [-> | Ht'];
     [|apply elem_of_cons in Ht' as [-> | Ht']; [|now apply elem_of_nil in Ht']]);
    try reflexivity; vm_compute in Hk; discriminate Hk.
Qed.

Lemma CancelBatch_requeues_members_witness :
  exists c',
    CancelBatchTx 5%N 1 batchedCtx = Ok (tt, c') /\
    (forall tx, tx ∈ [exampleSte 5%N 2 10; exampleSte 5%N 1 7] ->
       unbatched c' !! (5%N, Amount (Erc20Fee tx), Id tx) = Some tx) /\
    outgoingTxs c' = delete (5%N, 1) (outgoingTxs batchedCtx) /\
    (forall pk,
       (forall tx, tx ∈ [exampleSte 5%N 2 10; exampleSte 5%N 1 7] -> pk <> steKey tx) ->
       unbatched c' !! pk = unbatched batchedCtx !! pk) /\
    lastOutgoingBatchNonce c' = lastOutgoingBatchNonce batchedCtx /\
    lastObserved c' = lastObserved batchedCtx /\
    params c' = params batchedCtx /\
    BlockHeight c' = BlockHeight batchedCtx /\
    events c'
    = events batchedCtx
      ++ [{| evType := EventTypeOutgoingBatchCanceled;
             evContract := BridgeContractAddress (params batchedCtx);
             evBridgeChainID := BridgeChainID (params batchedCtx);
             evNonce := 1 |}].
Proof.
  apply (CancelBatch_requeues_members batchedCtx 5%N 1
           (exampleBatch 5%N 1 [exampleSte 5%N 2 10; exampleSte 5%N 1 7])).
  - reflexivity.
  - reflexivity.
  - exact members_distinct_example.
  - intros tx Htx.
    apply elem_of_cons in Htx as [-> | Htx]; [reflexivity|].
    apply elem_of_cons in Htx as [-> | Htx]; [reflexivity|].
    now apply elem_of_nil in Htx.
Defined.

(** ** BatchTxExecuted *)

Section ExecuteFacts.
Context `{codec : AddressCodec} `{lim : SdkIntLimit}.

Lemma CancelBatchTx_missing (c : Ctx) (T : Address) (j : Z) :
  outgoingTxs c !! (T, j) = None -> CancelBatchTx T j c = Panic.
Proof.
  intros Hnone. unfold CancelBatchTx, GetOutgoingTx, MakeBatchTxKey.
  unfold bind at 1. unfold bind at 1. unfold get at 1, ret at 1. cbn beta iota.
  now rewrite Hnone.
Qed.

(** [CancelBatchTx] adds no batch record. *)
Lemma CancelBatchTx_keeps_absent (c c' : Ctx) (T : Address) (j : Z) (key : BatchKey) :
  CancelBatchTx T j c = Ok (tt, c') ->
  outgoingTxs c !! key = None -> outgoingTxs c' !! key = None.
Proof.
  intros Hrun Hkey.
  destruct (outgoingTxs c !! (T, j)) as [[b| |]|] eqn:Hb.
  - rewrite (CancelBatchTx_run c T j b Hb) in Hrun. injection Hrun as <-.
    cbn. apply lookup_delete_None. now right.
  - unfold CancelBatchTx, GetOutgoingTx, MakeBatchTxKey in Hrun.
    unfold bind at 1 in Hrun. unfold bind at 1 in Hrun.
    unfold get at 1, ret at 1 in Hrun. cbn beta iota in Hrun.
    now rewrite Hb in Hrun.
  - unfold CancelBatchTx, GetOutgoingTx, MakeBatchTxKey in Hrun.
    unfold bind at 1 in Hrun. unfold bind at 1 in Hrun.
    unfold get at 1, ret at 1 in Hrun. cbn beta iota in Hrun.
    now rewrite Hb in Hrun.
  - now rewrite (CancelBatchTx_missing c T j Hb) in Hrun.
Qed.

Lemma cancelEarlierVisitor_keeps_absent (T : Address) (batchTx : option BatchTx)
    (kv : BatchKey * OutgoingTx) (c c' : Ctx) (r : unit * bool) (key : BatchKey) :
  cancelEarlierVisitor T batchTx kv tt c = Ok (r, c') ->
  outgoingTxs c !! key = None ->
  r.2 = false /\ outgoingTxs c' !! key = None.
Proof.
  unfold cancelEarlierVisitor. intros Hrun Hkey.
  destruct (asBatchTx (Some kv.2)) as [btx|]; [|discriminate].
  destruct batchTx as [b|]; [|discriminate].
  cbn [deref] in Hrun. unfold bind at 1, ret at 1 in Hrun.
  unfold bind at 1, ret at 1 in Hrun.
  destruct (Nonce btx <? Nonce b).
  - unfold bind at 2, ret at 1 in Hrun.
    destruct (String.eqb (TokenContract b) (Hex T)).
    + unfold bind in Hrun.
      destruct (CancelBatchTx T (Nonce btx) c) as [[[] c0]|] eqn:Hc; [|discriminate].
      injection Hrun as <- <-. split; [reflexivity|].
      now apply (CancelBatchTx_keeps_absent c c0 T (Nonce btx)).
    + injection Hrun as <- <-. now split.
  - injection Hrun as <- <-. now split.
Qed.

(** The cascade panics on a record with a smaller nonce when the executed
    token has no batch under that nonce. *)
Lemma visit_cancelEarlier_panics (T : Address) (b b' : BatchTx) (k' : BatchKey)
    (l : list (BatchKey * OutgoingTx)) :
  TokenContract b = Hex T ->
  Nonce b' < Nonce b ->
  (k', OtxBatch b') ∈ l ->
  forall c : Ctx,
    outgoingTxs c !! (T, Nonce b') = None ->
    visit (cancelEarlierVisitor T (Some b)) l tt c = Panic.
Proof.
  intros Htok Hlt. induction l as [|kv l IH]; intros Hin c Habs.
  - now apply elem_of_nil in Hin.
  - cbn [visit]. unfold bind.
    destruct (cancelEarlierVisitor T (Some b) kv tt c) as [[r c0]|] eqn:Hv;
      [|reflexivity].
    destruct (cancelEarlierVisitor_keeps_absent T (Some b) kv c c0 r _ Hv Habs)
      as [Hstop Habs0].
    apply elem_of_cons in Hin as [<- | Hin].
    + exfalso. revert Hv. unfold cancelEarlierVisitor. cbn [snd asBatchTx deref].
      unfold bind at 1, ret at 1. unfold bind at 1, ret at 1.
      destruct (Z.ltb_spec (Nonce b') (Nonce b)) as [_|?]; [|lia].
      unfold bind at 2, ret at 1. rewrite Htok, String.eqb_refl.
      unfold bind. now rewrite (CancelBatchTx_missing c T (Nonce b') Habs).
    + rewrite Hstop. destruct r as [[] ?]. now apply IH.
Qed.

(** C1 (code defect): the cascade of [BatchTxExecuted] compares the executed
    batch's own token contract with the executed token, never the scanned
    batch's; so any outstanding batch with a smaller nonce is cancelled under
    the executed token, and the call panics when that token has no batch
    under this nonce, as for a batch of another token.  Nothing is deleted
    and nothing is left unchanged: the transition aborts. *)
Theorem BatchTxExecuted_panics_on_foreign_batch (c : Ctx) (T : Address) (k : Z)
    (b b' : BatchTx) (k' : BatchKey) :
  outgoingTxs c !! (T, k) = Some (OtxBatch b) ->
  TokenContract b = Hex T ->
  outgoingTxs c !! k' = Some (OtxBatch b') ->
  Nonce b' < Nonce b ->
  outgoingTxs c !! (T, Nonce b') = None ->
  BatchTxExecuted T k c = Panic.
Proof.
  intros Hb Htok Hb' Hlt Habs.
  unfold BatchTxExecuted, GetOutgoingTx, MakeBatchTxKey.
  unfold bind at 1. unfold bind at 1. unfold get at 1, ret at 1. cbn beta iota.
  rewrite Hb. cbn [asBatchTx]. unfold IterateOutgoingTxs.
  unfold bind at 1. unfold bind at 1. unfold get at 1.
  rewrite (visit_cancelEarlier_panics T b b' k' (outgoing_scan c) Htok Hlt);
    [reflexivity | now apply outgoing_scan_elem | exact Habs].
Qed.

(** X1: without a batch record at (T, k), [BatchTxExecuted T k] panics: the
    executed batch is a [nil] pointer, read by the first visit of the scan
    or, in an empty store, by [GetStoreIndex]. *)
Theorem BatchTxExecuted_panics_without_record (c : Ctx) (T : Address) (k : Z) :
  asBatchTx (outgoingTxs c !! (T, k)) = None ->
  BatchTxExecuted T k c = Panic.
Proof.
  intros Hnone.
  unfold BatchTxExecuted, GetOutgoingTx, MakeBatchTxKey.
  unfold bind at 1. unfold bind at 1. unfold get at 1, ret at 1. cbn beta iota.
  rewrite Hnone. unfold IterateOutgoingTxs.
  unfold bind at 1. unfold bind at 1. unfold get at 1.
  destruct (outgoing_scan c) as [|kv l]; [reflexivity|].
  cbn [visit]. unfold bind at 1. unfold cancelEarlierVisitor.
  unfold bind at 1. now destruct (asBatchTx (Some kv.2)).
Qed.

End ExecuteFacts.

Lemma BatchTxExecuted_panics_on_foreign_batch_witness :
  BatchTxExecuted 5%N 2 twoTokenCtx = Panic.
Proof.
  apply (BatchTxExecuted_panics_on_foreign_batch twoTokenCtx 5%N 2
           (exampleBatch 5%N 2 [exampleSte 5%N 1 7])
           (exampleBatch 6%N 1 [exampleSte 6%N 4 9]) (6%N, 1)).
  - reflexivity.
  - reflexivity.
  - reflexivity.
  - reflexivity.
  - reflexivity.
Defined.

Lemma all_batches_twoTokenCtx : all_batches twoTokenCtx.
Proof.
  intros k otx Hk. cbn in Hk.
  repeat (apply lookup_insert_Some in Hk as [[<- <-] | [_ Hk]];
          [eexists; split; [reflexivity | cbn; lia] |]).
  now rewrite lookup_empty in Hk.
Qed.

(** C7 (code defect): in [twoTokenCtx] a batch exists at (5, 2), every
    record under the batch prefix is a batch stored under its own key, and
    [BatchTxExecuted 5 2] panics all the same, on the batch (6, 1) of the
    other token. *)
Theorem BatchTxExecuted_fails_on_wellformed_store :
  outgoingTxs twoTokenCtx !! (5%N, 2)
  = Some (OtxBatch (exampleBatch 5%N 2 [exampleSte 5%N 1 7])) /\
  all_batches twoTokenCtx /\
  store_well_keyed twoTokenCtx /\
  BatchTxExecuted 5%N 2 twoTokenCtx = Panic.
Proof.
  split_and!.
  - reflexivity.
  - exact all_batches_twoTokenCtx.
  - intros k b Hk. cbn in Hk.
    repeat (apply lookup_insert_Some in Hk as [[<- [= <-]] | [_ Hk]]; [reflexivity|]).
    now rewrite lookup_empty in Hk.
  - vm_compute. reflexivity.
Qed.

(** Example: the failing state is reachable: build a batch of token 6 (nonce 1), then
    one of token 5 (nonce 2), then execute the latter. *)
Example BatchTxExecuted_panics_after_two_builds :
  match BuildBatchTx 6%N 100 poolCtx with
  | Ok (Some b1, c1) =>
      match BuildBatchTx 5%N 100 c1 with
      | Ok (Some b2, c2) =>
          Nonce b1 = 1 /\ Nonce b2 = 2 /\ BatchTxExecuted 5%N 2 c2 = Panic
      | _ => False
      end
  | _ => False
  end.
Proof. vm_compute. split_and!; reflexivity. Qed.

Lemma BatchTxExecuted_panics_without_record_witness :
  BatchTxExecuted 5%N 7 twoTokenCtx = Panic.
Proof.
  apply (BatchTxExecuted_panics_without_record twoTokenCtx 5%N 7). reflexivity.
Defined.

(** ** Building and then cancelling a batch *)

Section RoundTrip.
Context `{codec : AddressCodec} `{lim : SdkIntLimit}.

Lemma visited_elem {A : Type} (n : Z) (l : list A) (x : A) :
  forall seen : Z, x ∈ visited n seen l -> x ∈ l.
Proof.
  induction l as [|y l IH]; intros seen Hin; [exact Hin|].
  cbn [visited] in Hin. apply elem_of_cons in Hin as [-> | Hin]; [left|].
  right. destruct (seen + 1 =? n).
  - now apply elem_of_nil in Hin.
  - now apply (IH (seen + 1)).
Qed.

Lemma lookup_drain_other (l : list SendToEthereum)
    (m : gmap (Address * Z * Z) SendToEthereum) (k : PoolKey) :
  (forall t, t ∈ l -> k <> steKey t) -> drain l m !! k = m !! k.
Proof.
  revert m. induction l as [|t l IH]; intros m Hk; [reflexivity|].
  change (drain (t :: l) m) with (drain l (delete (steKey t) m)).
  rewrite IH by (intros t' Ht'; apply Hk; now right).
  apply lookup_delete_ne. intros E. apply (Hk t); [left | now symmetry].
Qed.

(** Putting back what was taken out of the pool restores the pool. *)
Lemma requeue_drain (l : list SendToEthereum)
    (m : gmap (Address * Z * Z) SendToEthereum) :
  (forall t, t ∈ l -> m !! steKey t = Some t) ->
  requeue l (drain l m) = m.
Proof.
  intros Hl. apply map_eq. intros k.
  assert (Hdist : members_distinct l).
  { intros t t' Ht Ht' E. pose proof (Hl t Ht) as H1. pose proof (Hl t' Ht') as H2.
    rewrite E in H1. congruence. }
  destruct (decide (k ∈ steKey <$> l)) as [Hk | Hk].
  - apply list_elem_of_fmap in Hk as (t & -> & Ht).
    rewrite (lookup_requeue_elem l _ t Hdist Ht). symmetry. now apply Hl.
  - assert (Hne : forall t, t ∈ l -> k <> steKey t).
    { intros t Ht ->. apply Hk. apply list_elem_of_fmap. now exists t. }
    now rewrite lookup_requeue_other, lookup_drain_other.
Qed.

(** A scan whose visitor leaves the context alone leaves it alone. *)
Lemma visit_readonly {A Acc : Type} (cb : A -> Acc -> M (Acc * bool)) (l : list A) :
  (forall x acc c r c', cb x acc c = Ok (r, c') -> c' = c) ->
  forall acc c r c', visit cb l acc c = Ok (r, c') -> c' = c.
Proof.
  intros Hcb. induction l as [|x l IH]; intros acc c r c' Hrun.
  - now injection Hrun as _ <-.
  - cbn [visit] in Hrun. unfold bind in Hrun.
    destruct (cb x acc c) as [[[acc' stop] c0]|] eqn:Hx; [|discriminate].
    apply Hcb in Hx as ->. cbn [fst snd] in Hrun. destruct stop.
    + now injection Hrun as _ <-.
    + now apply (IH acc' c r c').
Qed.

Lemma GetLastOutgoingBatchByTokenType_readonly (T : Address) (c c' : Ctx)
    (r : option BatchTx) :
  GetLastOutgoingBatchByTokenType T c = Ok (r, c') -> c' = c.
Proof.
  unfold GetLastOutgoingBatchByTokenType, IterateOutgoingTxs.
  unfold bind at 1. unfold bind at 1. unfold get at 1.
  destruct (visit _ _ _ c) as [[acc c0]|] eqn:Hv; [|discriminate].
  intros [= _ <-]. revert Hv. apply visit_readonly.
  clear. intros [k otx] acc c r c'. unfold lastBatchVisitor, bind, deref, ret, panic.
  cbn [snd asBatchTx]. destruct otx as [b| |]; try discriminate.
  destruct (bool_decide _); cbn; [destruct (acc.2 <? Nonce b)|];
    now intros [= _ <-].
Qed.

(** X2: cancelling a batch right after [BuildBatchTx] built it from a well-keyed
    pool gives the pool back as it was before the build, entry for entry,
    and removes the batch record. *)
Theorem BuildBatch_then_CancelBatch_restores_pool (c c' : Ctx) (T : Address)
    (n : Z) (batch : BatchTx) :
  pool_well_keyed c ->
  BuildBatchTx T n c = Ok (Some batch, c') ->
  exists c'',
    CancelBatchTx T (Nonce batch) c' = Ok (tt, c'') /\
    unbatched c'' = unbatched c /\
    outgoingTxs c'' = delete (T, Nonce batch) (outgoingTxs c).
Proof.
  intros Hwf Hbuild.
  destruct (GetLastOutgoingBatchByTokenType T c) as [[last c0]|] eqn:Hlast.
  2:{ unfold BuildBatchTx in Hbuild. now rewrite (bind_Panic _ _ _ Hlast) in Hbuild. }
  pose proof (GetLastOutgoingBatchByTokenType_readonly T c c0 last Hlast) as ->.
  apply (BuildBatchTx_run_Ok c _ T n last _ Hlast) in Hbuild.
  destruct (guardAborts last _); [discriminate|].
  destruct (IncrementLastOutgoingBatchNonce c) as [[nonce c1]|]; [|discriminate].
  destruct (getBatchTimeoutHeight c) as [[timeout c2]|]; [|discriminate].
  injection Hbuild as <- <-.
  set (sel := visited n 0 (pool_scan c T)).
  eexists. split.
  - apply CancelBatchTx_run. cbn. apply lookup_insert_eq.
  - unfold cancelledCtx, builtCtx, builtBatch, GetStoreIndex, MakeBatchTxKey.
    cbn. rewrite HexToAddress_Hex. split.
    + apply requeue_drain. intros t Ht.
      apply visited_elem, pool_scan_elem in Ht as (k & Hk & _).
      now rewrite <- (Hwf k t Hk).
    + now rewrite delete_insert_eq.
Qed.

End RoundTrip.

Lemma pool_well_keyed_poolCtx : pool_well_keyed poolCtx.
Proof.
  intros k ste Hk. cbn in Hk.
  repeat (apply lookup_insert_Some in Hk as [[<- <-] | [_ Hk]]; [reflexivity|]).
  now rewrite lookup_empty in Hk.
Qed.

Lemma BuildBatch_then_CancelBatch_restores_pool_witness :
  exists c'',
    CancelBatchTx 5%N
      (Nonce (builtBatch poolCtx 5%N [exampleSte 5%N 2 10; exampleSte 5%N 1 7] 1 3900))
      (builtCtx poolCtx 5%N [exampleSte 5%N 2 10; exampleSte 5%N 1 7] 1 3900)
    = Ok (tt, c'') /\
    unbatched c'' = unbatched poolCtx /\
    outgoingTxs c'' = delete (5%N, 1) (outgoingTxs poolCtx).
Proof.
  apply (BuildBatch_then_CancelBatch_restores_pool poolCtx
           (builtCtx poolCtx 5%N [exampleSte 5%N 2 10; exampleSte 5%N 1 7] 1 3900)
           5%N 2
           (builtBatch poolCtx 5%N [exampleSte 5%N 2 10; exampleSte 5%N 1 7] 1 3900)).
  - exact pool_well_keyed_poolCtx.
  - vm_compute. reflexivity.
Defined.

(** ** The cascade when every earlier batch is of the executed token *)

Section CascadeFacts.
Context `{codec : AddressCodec} `{lim : SdkIntLimit}.

Lemma outgoing_scan_NoDup (c : Ctx) : NoDup (outgoing_scan c).*1.
Proof.
  unfold outgoing_scan. rewrite merge_sort_Permutation.
  apply NoDup_fst_map_to_list.
Qed.

Lemma cancelEarlierVisitor_later (T : Address) (b b0 : BatchTx) (key : BatchKey)
    (c : Ctx) :
  ~ Nonce b0 < Nonce b ->
  cancelEarlierVisitor T (Some b) (key, OtxBatch b0) tt c = Ok ((tt, false), c).
Proof.
  intros Hge. unfold cancelEarlierVisitor. cbn [snd asBatchTx deref].
  unfold bind at 1, ret at 1. unfold bind at 1, ret at 1.
  destruct (Z.ltb_spec (Nonce b0) (Nonce b)) as [?|_]; [lia|]. reflexivity.
Qed.

Lemma cancelEarlierVisitor_earlier (T : Address) (b b0 : BatchTx) (c : Ctx) :
  Nonce b0 < Nonce b ->
  TokenContract b = Hex T ->
  outgoingTxs c !! (T, Nonce b0) = Some (OtxBatch b0) ->
  cancelEarlierVisitor T (Some b) ((T, Nonce b0), OtxBatch b0) tt c
  = Ok ((tt, false), cancelledCtx c (Nonce b0) b0).
Proof.
  intros Hlt Htok Hb0. unfold cancelEarlierVisitor. cbn [snd asBatchTx deref].
  unfold bind at 1, ret at 1. unfold bind at 1, ret at 1.
  destruct (Z.ltb_spec (Nonce b0) (Nonce b)) as [_|?]; [|lia].
  unfold bind at 2, ret at 1. rewrite Htok, String.eqb_refl.
  unfold bind. now rewrite (CancelBatchTx_run c T (Nonce b0) b0 Hb0).
Qed.

(** The scan cancels every visited batch with a smaller nonce, once, and
    touches no other record. *)
Lemma visit_cancelEarlier_ok (T : Address) (b : BatchTx)
    (l : list (BatchKey * OutgoingTx)) :
  TokenContract b = Hex T ->
  NoDup l.*1 ->
  forall c : Ctx,
    (forall key otx, (key, otx) ∈ l ->
       outgoingTxs c !! key = Some otx /\
       exists b0, otx = OtxBatch b0 /\ GetStoreIndex b0 = key /\
                  (Nonce b0 < Nonce b -> key.1 = T)) ->
    exists c',
      visit (cancelEarlierVisitor T (Some b)) l tt c = Ok (tt, c') /\
      (forall key b0, (key, OtxBatch b0) ∈ l -> Nonce b0 < Nonce b ->
         outgoingTxs c' !! key = None) /\
      (forall key, (forall b0, (key, OtxBatch b0) ∈ l -> ~ Nonce b0 < Nonce b) ->
         outgoingTxs c' !! key = outgoingTxs c !! key).
Proof.
  intros Htok. induction l as [|[key0 otx0] l IH]; intros Hnd c Hl.
  - exists c. split_and!; [reflexivity | | reflexivity].
    intros key b0 Hin. now apply elem_of_nil in Hin.
  - cbn [fmap list_fmap fst] in Hnd. apply NoDup_cons in Hnd as [Hfresh Hnd].
    destruct (Hl key0 otx0) as (Hk0 & b0 & -> & Hidx & Htoken); [left|].
    assert (Hfresh' : forall otx, (key0, otx) ∈ l -> False).
    { intros otx Hin. apply Hfresh. apply list_elem_of_fmap. now exists (key0, otx). }
    cbn [visit]. unfold bind at 1.
    destruct (decide (Nonce b0 < Nonce b)) as [Hlt | Hge].
    + assert (Hkey0 : key0 = (T, Nonce b0)).
      { rewrite <- Hidx. unfold GetStoreIndex, MakeBatchTxKey. f_equal.
        rewrite <- Hidx in Htoken. exact (Htoken Hlt). }
      rewrite Hkey0 in Hk0, Hfresh', Hidx. rewrite Hkey0.
      rewrite (cancelEarlierVisitor_earlier T b b0 c Hlt Htok Hk0).
      cbn [fst snd].
      assert (Hdel : outgoingTxs (cancelledCtx c (Nonce b0) b0)
                     = delete (T, Nonce b0) (outgoingTxs c)).
      { unfold cancelledCtx. cbn. now rewrite Hidx. }
      destruct (IH Hnd (cancelledCtx c (Nonce b0) b0)) as (c' & Hrun & Hgone & Hkept).
      { intros key otx Hin. destruct (Hl key otx) as [Hk Hrest]; [now right|].
        split; [|exact Hrest]. rewrite Hdel, lookup_delete_ne; [exact Hk|].
        intros <-. now apply (Hfresh' otx). }
      exists c'. split_and!; [exact Hrun | |].
      * intros key b1 Hin Hlt1. apply elem_of_cons in Hin as [[= -> <-] | Hin].
        -- rewrite Hkept, Hdel; [apply lookup_delete_eq|].
           intros b2 Hin2. destruct (Hfresh' _ Hin2).
        -- now apply (Hgone key b1).
      * intros key Hkey. rewrite Hkept, Hdel.
        -- apply lookup_delete_ne. intros <-. apply (Hkey b0); [left | exact Hlt].
        -- intros b1 Hin. apply Hkey. now right.
    + rewrite (cancelEarlierVisitor_later T b b0 key0 c Hge). cbn [fst snd].
      destruct (IH Hnd c) as (c' & Hrun & Hgone & Hkept).
      { intros key otx Hin. apply Hl. now right. }
      exists c'. split_and!; [exact Hrun | |].
      * intros key b1 Hin Hlt1. apply elem_of_cons in Hin as [[= -> <-] | Hin].
        -- contradiction.
        -- now apply (Hgone key b1).
      * intros key Hkey. apply Hkept. intros b1 Hin. apply Hkey. now right.
Qed.

(** X3: what [BatchTxExecuted] does by design: in a well-keyed store of batches
    in which every outstanding batch with a nonce below [k] is a batch of
    [T], executing the batch at (T, k), whose [TokenContract] is spelled
    exactly as [Hex T] prints it, removes the records of [T] with a nonce
    up to [k] and leaves every other record as it was. *)
Theorem BatchTxExecuted_cascade_within_token (c : Ctx) (T : Address) (k : Z)
    (b : BatchTx) :
  outgoingTxs c !! (T, k) = Some (OtxBatch b) ->
  TokenContract b = Hex T ->
  all_batches c ->
  store_well_keyed c ->
  (forall key b0, outgoingTxs c !! key = Some (OtxBatch b0) ->
     Nonce b0 < k -> key.1 = T) ->
  exists c',
    BatchTxExecuted T k c = Ok (tt, c') /\
    (forall j, j <= k -> outgoingTxs c' !! (T, j) = None) /\
    (forall key, ~ (key.1 = T /\ key.2 <= k) ->
       outgoingTxs c' !! key = outgoingTxs c !! key).
Proof.
  intros Hb Htok Hall Hwk Hsingle.
  assert (Hnonce : Nonce b = k).
  { pose proof (Hwk _ _ Hb) as Hidx. now injection Hidx. }
  destruct (visit_cancelEarlier_ok T b (outgoing_scan c) Htok (outgoing_scan_NoDup c) c)
    as (c1 & Hrun & Hgone & Hkept).
  { intros key otx Hin. apply outgoing_scan_elem in Hin. split; [exact Hin|].
    destruct (Hall key otx Hin) as (b0 & -> & _). exists b0.
    split_and!; [reflexivity | now apply Hwk |].
    rewrite Hnonce. now apply (Hsingle key b0). }
  exists (with_outgoingTxs (delete (T, k) (outgoingTxs c1)) c1). split_and!.
  - unfold BatchTxExecuted, GetOutgoingTx, MakeBatchTxKey.
    unfold bind at 1. unfold bind at 1. unfold get at 1, ret at 1. cbn beta iota.
    rewrite Hb. cbn [asBatchTx]. unfold IterateOutgoingTxs.
    unfold bind at 1. unfold bind at 1. unfold bind at 1. unfold get at 1.
    rewrite Hrun. cbn [deref]. unfold bind, ret, DeleteOutgoingTx, modify.
    now rewrite (Hwk _ _ Hb).
  - intros j Hj. cbn. destruct (decide (j = k)) as [-> | Hne].
    + apply lookup_delete_eq.
    + rewrite lookup_delete_ne by congruence.
      destruct (outgoingTxs c !! (T, j)) as [otx|] eqn:Hj0.
      * destruct (Hall _ _ Hj0) as (b0 & -> & _).
        pose proof (Hwk _ _ Hj0) as Hidx.
        apply (Hgone (T, j) b0); [now apply outgoing_scan_elem|].
        injection Hidx as _ ->. lia.
      * rewrite Hkept; [exact Hj0|].
        intros b0 Hin%outgoing_scan_elem. congruence.
  - intros key Hkey. cbn. rewrite lookup_delete_ne.
    + apply Hkept. intros b0 Hin%outgoing_scan_elem Hlt.
      apply Hkey. pose proof (Hwk _ _ Hin) as Hidx. split.
      * apply (Hsingle key b0 Hin). lia.
      * rewrite <- Hidx. cbn. lia.
    + intros <-. apply Hkey. cbn. split; [reflexivity | lia].
Qed.

End CascadeFacts.

Lemma store_well_keyed_threeBatchCtx : store_well_keyed threeBatchCtx.
Proof.
  intros k b Hk. cbn in Hk.
  repeat (apply lookup_insert_Some in Hk as [[<- [= <-]] | [_ Hk]]; [reflexivity|]).
  now rewrite lookup_empty in Hk.
Qed.

Lemma BatchTxExecuted_cascade_within_token_witness :
  exists c',
    BatchTxExecuted 5%N 2 threeBatchCtx = Ok (tt, c') /\
    (forall j, j <= 2 -> outgoingTxs c' !! (5%N, j) = None) /\
    (forall key, ~ (key.1 = 5%N /\ key.2 <= 2) ->
       outgoingTxs c' !! key = outgoingTxs threeBatchCtx !! key).
Proof.
  apply (BatchTxExecuted_cascade_within_token threeBatchCtx 5%N 2
           (exampleBatch 5%N 2 [])).
  - reflexivity.
  - reflexivity.
  - exact all_batches_threeBatchCtx.
  - exact store_well_keyed_threeBatchCtx.
  - intros key b0 Hk Hlt. cbn in Hk.
    repeat (apply lookup_insert_Some in Hk as [[<- [= <-]] | [_ Hk]];
            [first [reflexivity | cbn in Hlt; lia] |]).
    now rewrite lookup_empty in Hk.
Defined.

(** * More of the keeper *)

(** ** Generic facts about scans *)

(** A scan whose visitor panics on one record and never asks to stop
    panics. *)
Lemma visit_panics {A Acc : Type} (cb : A -> Acc -> M (Acc * bool))
    (l : list A) (x : A) :
  (forall acc c, cb x acc c = Panic) ->
  (forall y acc c r c', cb y acc c = Ok (r, c') -> r.2 = false) ->
  x ∈ l ->
  forall acc c, visit cb l acc c = Panic.
Proof.
  intros Hx Hstop. induction l as [|y l IH]; intros Hin acc c.
  - now apply elem_of_nil in Hin.
  - cbn [visit]. unfold bind.
    destruct (cb y acc c) as [[r c0]|] eqn:Hy; [|reflexivity].
    apply elem_of_cons in Hin as [<- | Hin]; [now rewrite Hx in Hy|].
    rewrite (Hstop _ _ _ _ _ Hy). now apply IH.
Qed.

(** ** Slashing watermark *)

Lemma watermark_read_back (s : SlashCtx) (h : Z) :
  0 <= h < 2 ^ 64 ->
  GetLastSlashedBatchBlockHeight (SetLastSlashedBatchBlockHeight h s) = Ok h.
Proof.
  intros Hh.
  unfold GetLastSlashedBatchBlockHeight, SetLastSlashedBatchBlockHeight.
  cbn [lastSlashedBatchBlock]. unfold UInt64FromBytes, UInt64Bytes.
  now apply BigEndianUint64_Uint64ToBigEndian.
Qed.

(** X4: a height written by [SetLastSlashedBatchBlockHeight] is read back by
    [GetLastSlashedBatchBlockHeight], whatever watermark was stored before
    (a lower height replaces a higher one: the setter checks nothing), and
    the rest of the store is untouched. *)
Theorem slash_watermark_round_trip (s : SlashCtx) (h : Z) :
  0 <= h < 2 ^ 64 ->
  GetLastSlashedBatchBlockHeight (SetLastSlashedBatchBlockHeight h s) = Ok h /\
  keeperCtx (SetLastSlashedBatchBlockHeight h s) = keeperCtx s.
Proof.
  intros Hh. split; [now apply watermark_read_back | reflexivity].
Qed.

Lemma slash_watermark_round_trip_witness :
  GetLastSlashedBatchBlockHeight
    (SetLastSlashedBatchBlockHeight 120 (SetLastSlashedBatchBlockHeight 150 slashCtx))
  = Ok 120 /\
  keeperCtx
    (SetLastSlashedBatchBlockHeight 120 (SetLastSlashedBatchBlockHeight 150 slashCtx))
  = keeperCtx (SetLastSlashedBatchBlockHeight 150 slashCtx).
Proof.
  apply (slash_watermark_round_trip (SetLastSlashedBatchBlockHeight 150 slashCtx) 120).
  lia.
Defined.

(** ** GetUnSlashedBatches *)

Lemma unslashedVisitor_batch (maxHeight last : Z) (k : BatchKey) (b : BatchTx)
    (out : list BatchTx) (c : Ctx) :
  unslashedVisitor maxHeight last (k, OtxBatch b) out c
  = Ok ((if (Height b <? maxHeight) && (last <? Height b) then out ++ [b] else out,
         false), c).
Proof. reflexivity. Qed.

Lemma unslashedVisitor_stray (maxHeight last : Z) (k : BatchKey) (otx : OutgoingTx)
    (out : list BatchTx) (c : Ctx) :
  asBatchTx (Some otx) = None ->
  unslashedVisitor maxHeight last (k, otx) out c = Panic.
Proof. destruct otx; [discriminate | reflexivity | reflexivity]. Qed.

Lemma unslashedVisitor_never_stops (maxHeight last : Z) (kv : BatchKey * OutgoingTx)
    (out : list BatchTx) (c c' : Ctx) (r : list BatchTx * bool) :
  unslashedVisitor maxHeight last kv out c = Ok (r, c') -> r.2 = false.
Proof.
  destruct kv as [k [b| |]]; [|discriminate..].
  rewrite unslashedVisitor_batch. now intros [= <- _].
Qed.

(** What a scan with [unslashedVisitor] returns, when it returns. *)
Lemma visit_unslashedVisitor (maxHeight last : Z) (l : list (BatchKey * OutgoingTx)) :
  forall (out out' : list BatchTx) (c c' : Ctx),
    visit (unslashedVisitor maxHeight last) l out c = Ok (out', c') ->
    c' = c /\
    forall b, b ∈ out' <->
      b ∈ out \/ ((exists k, (k, OtxBatch b) ∈ l) /\ slash_candidate last maxHeight b).
Proof.
  induction l as [|[k otx] l IH]; intros out out' c c' Hrun.
  - injection Hrun as <- <-. split; [reflexivity|]. intros b. split; [now left|].
    intros [?|[[k Hin] _]]; [done | now apply elem_of_nil in Hin].
  - cbn [visit] in Hrun. unfold bind in Hrun.
    destruct otx as [b0| |]; [|discriminate..].
    rewrite unslashedVisitor_batch in Hrun. cbn [fst snd] in Hrun.
    apply IH in Hrun as [-> Hmem]. split; [reflexivity|].
    intros b. rewrite Hmem. unfold slash_candidate.
    destruct (Z.ltb_spec (Height b0) maxHeight) as [H1|H1];
      destruct (Z.ltb_spec last (Height b0)) as [H2|H2]; cbn [andb].
    + rewrite elem_of_app, list_elem_of_singleton. split.
      * intros [[?| ->]|[[k' Hin] Hc]].
        -- now left.
        -- right. split; [exists k; left | lia].
        -- right. split; [exists k'; now right | exact Hc].
      * intros [?|[[k' Hin] Hc]]; [now left; left|].
        apply elem_of_cons in Hin as [[= -> ->] | Hin].
        -- left. now right.
        -- right. split; [now exists k' | exact Hc].
    + split.
      * intros [?|[[k' Hin] Hc]]; [now left|].
        right. split; [exists k'; now right | exact Hc].
      * intros [?|[[k' Hin] Hc]]; [now left|].
        apply elem_of_cons in Hin as [[= -> ->] | Hin]; [lia|].
        right. split; [now exists k' | exact Hc].
    + split.
      * intros [?|[[k' Hin] Hc]]; [now left|].
        right. split; [exists k'; now right | exact Hc].
      * intros [?|[[k' Hin] Hc]]; [now left|].
        apply elem_of_cons in Hin as [[= -> ->] | Hin]; [lia|].
        right. split; [now exists k' | exact Hc].
    + split.
      * intros [?|[[k' Hin] Hc]]; [now left|].
        right. split; [exists k'; now right | exact Hc].
      * intros [?|[[k' Hin] Hc]]; [now left|].
        apply elem_of_cons in Hin as [[= -> ->] | Hin]; [lia|].
        right. split; [now exists k' | exact Hc].
Qed.

(** A scan with [unslashedVisitor] returns when every record is a batch. *)
Lemma visit_unslashedVisitor_total (maxHeight last : Z)
    (l : list (BatchKey * OutgoingTx)) :
  (forall k otx, (k, otx) ∈ l -> exists b, otx = OtxBatch b) ->
  forall (out : list BatchTx) (c : Ctx),
    exists out', visit (unslashedVisitor maxHeight last) l out c = Ok (out', c).
Proof.
  induction l as [|[k otx] l IH]; intros Hall out c.
  - now exists out.
  - destruct (Hall k otx) as [b ->]; [left|].
    cbn [visit]. unfold bind. rewrite unslashedVisitor_batch. cbn [fst snd].
    apply IH. intros k' otx' Hin. apply (Hall k'). now right.
Qed.

Lemma SlashCtx_eta (s : SlashCtx) :
  {| keeperCtx := keeperCtx s; lastSlashedBatchBlock := lastSlashedBatchBlock s |} = s.
Proof. now destruct s. Qed.

(** What [GetUnSlashedBatches] returns, when it returns. *)
Lemma GetUnSlashedBatches_inv (maxHeight : Z) (s s' : SlashCtx) (out : list BatchTx) :
  GetUnSlashedBatches maxHeight s = Ok (out, s') ->
  s' = s /\
  exists last,
    GetLastSlashedBatchBlockHeight s = Ok last /\
    forall b, b ∈ out <->
      (exists k, outgoingTxs (keeperCtx s) !! k = Some (OtxBatch b)) /\
      slash_candidate last maxHeight b.
Proof.
  unfold GetUnSlashedBatches, IterateOutgoingTxs.
  destruct (GetLastSlashedBatchBlockHeight s) as [last|]; [|discriminate].
  unfold bind at 1, get at 1.
  destruct (visit _ _ _ _) as [[out0 c0]|] eqn:Hv; [|discriminate].
  intros [= <- <-]. apply visit_unslashedVisitor in Hv as [-> Hmem].
  split; [apply SlashCtx_eta|]. exists last. split; [reflexivity|].
  intros b. rewrite Hmem. split.
  - intros [Hnil|[[k Hin] Hc]]; [now apply elem_of_nil in Hnil|].
    split; [exists k; now apply outgoing_scan_elem | exact Hc].
  - intros [[k Hk] Hc]. right. split; [exists k; now apply outgoing_scan_elem | exact Hc].
Qed.

(** X5: when the watermark cell can be read and every record under the batch
    prefix is a batch, [GetUnSlashedBatches maxHeight] changes nothing and
    returns exactly the outstanding batches whose creation height lies
    strictly between the watermark (0 when it was never set) and
    [maxHeight]. *)
Theorem GetUnSlashedBatches_candidates (maxHeight last : Z) (s : SlashCtx) :
  GetLastSlashedBatchBlockHeight s = Ok last ->
  (forall k otx, outgoingTxs (keeperCtx s) !! k = Some otx -> exists b, otx = OtxBatch b) ->
  exists out,
    GetUnSlashedBatches maxHeight s = Ok (out, s) /\
    forall b, b ∈ out <->
      (exists k, outgoingTxs (keeperCtx s) !! k = Some (OtxBatch b)) /\
      last < Height b < maxHeight.
Proof.
  intros Hlast Hall.
  destruct (visit_unslashedVisitor_total maxHeight last (outgoing_scan (keeperCtx s)))
    with (out := @nil BatchTx) (c := keeperCtx s) as [out Hv].
  { intros k otx Hin. apply (Hall k). now apply outgoing_scan_elem. }
  assert (Hrun : GetUnSlashedBatches maxHeight s = Ok (out, s)).
  { unfold GetUnSlashedBatches, IterateOutgoingTxs. rewrite Hlast.
    unfold bind at 1, get at 1. rewrite Hv. now rewrite SlashCtx_eta. }
  exists out. split; [exact Hrun|].
  destruct (GetUnSlashedBatches_inv _ _ _ _ Hrun) as (_ & last' & Hlast' & Hmem).
  rewrite Hlast in Hlast'. injection Hlast' as <-. exact Hmem.
Qed.

Lemma GetUnSlashedBatches_candidates_witness :
  exists out,
    GetUnSlashedBatches 200 slashCtx = Ok (out, slashCtx) /\
    forall b, b ∈ out <->
      (exists k, outgoingTxs (keeperCtx slashCtx) !! k = Some (OtxBatch b)) /\
      0 < Height b < 200.
Proof.
  apply (GetUnSlashedBatches_candidates 200 0 slashCtx).
  - reflexivity.
  - intros k otx Hk. destruct (all_batches_threeBatchCtx k otx Hk) as (b & -> & _).
    now exists b.
Defined.

(** X6: [GetUnSlashedBatches] asserts the variant of every record without
    the comma-ok form: one record under the batch prefix that is not a batch
    makes it panic, whatever [maxHeight] and the watermark are. *)
Theorem GetUnSlashedBatches_panics_on_stray_record (maxHeight : Z) (s : SlashCtx)
    (k : BatchKey) (otx : OutgoingTx) :
  outgoingTxs (keeperCtx s) !! k = Some otx ->
  asBatchTx (Some otx) = None ->
  GetUnSlashedBatches maxHeight s = Panic.
Proof.
  intros Hk Hstray. unfold GetUnSlashedBatches, IterateOutgoingTxs.
  destruct (GetLastSlashedBatchBlockHeight s) as [last|]; [|reflexivity].
  unfold bind at 1, get at 1.
  rewrite (visit_panics (unslashedVisitor maxHeight last)
             (outgoing_scan (keeperCtx s)) (k, otx)); [reflexivity | | |].
  - intros acc c. now apply unslashedVisitor_stray.
  - intros y acc c r c'. apply unslashedVisitor_never_stops.
  - now apply outgoing_scan_elem.
Qed.

Lemma GetUnSlashedBatches_panics_on_stray_record_witness :
  GetUnSlashedBatches 200
    {| keeperCtx := strayRecordCtx; lastSlashedBatchBlock := None |} = Panic.
Proof.
  apply (GetUnSlashedBatches_panics_on_stray_record 200
           {| keeperCtx := strayRecordCtx; lastSlashedBatchBlock := None |}
           (6%N, 9) (OtxSignerSet 9)); reflexivity.
Defined.

(** X7: after the watermark was set to [h], every batch that
    [GetUnSlashedBatches maxHeight] returns was created above [h] and below
    [maxHeight]; when [maxHeight <= h + 1] it returns no batch at all. *)
Theorem GetUnSlashedBatches_after_watermark (maxHeight h : Z) (s s' : SlashCtx)
    (out : list BatchTx) :
  0 <= h < 2 ^ 64 ->
  GetUnSlashedBatches maxHeight (SetLastSlashedBatchBlockHeight h s) = Ok (out, s') ->
  (forall b, b ∈ out -> h < Height b < maxHeight) /\
  (maxHeight <= h + 1 -> out = []).
Proof.
  intros Hh Hrun.
  destruct (GetUnSlashedBatches_inv _ _ _ _ Hrun) as (_ & last & Hlast & Hmem).
  rewrite (watermark_read_back s h Hh) in Hlast. injection Hlast as <-.
  assert (Hin : forall b, b ∈ out -> h < Height b < maxHeight).
  { intros b Hb. now apply Hmem in Hb as [_ Hc]. }
  split; [exact Hin|]. intros Hle.
  destruct out as [|b out]; [reflexivity|].
  specialize (Hin b ltac:(left)). lia.
Qed.

Lemma GetUnSlashedBatches_after_watermark_witness :
  (forall b, b ∈ [exampleBatch 5%N 1 []; exampleBatch 5%N 2 []; exampleBatch 6%N 3 []] ->
     150 < Height b < 200) /\
  (200 <= 150 + 1 ->
   [exampleBatch 5%N 1 []; exampleBatch 5%N 2 []; exampleBatch 6%N 3 []] = []).
Proof.
  apply (GetUnSlashedBatches_after_watermark 200 150 slashCtx
           (SetLastSlashedBatchBlockHeight 150 slashCtx)
           [exampleBatch 5%N 1 []; exampleBatch 5%N 2 []; exampleBatch 6%N 3 []]).
  - lia.
  - vm_compute. reflexivity.
Defined.

(** ** The limit of a pool scan *)

Lemma visited_positive {A : Type} (n : Z) (l : list A) :
  forall seen : Z, 0 <= seen < n ->
    visited n seen l = take (Z.to_nat (n - seen)) l.
Proof.
  induction l as [|x l IH]; intros seen Hseen.
  - now rewrite take_nil.
  - cbn [visited]. destruct (Z.eqb_spec (seen + 1) n) as [E|E].
    + replace (n - seen) with 1 by lia. reflexivity.
    + rewrite IH by lia.
      replace (Z.to_nat (n - seen)) with (S (Z.to_nat (n - (seen + 1)))) by lia.
      reflexivity.
Qed.

Lemma visited_nonpositive {A : Type} (n : Z) (l : list A) :
  forall seen : Z, n <= seen -> visited n seen l = l.
Proof.
  induction l as [|x l IH]; intros seen Hseen; [reflexivity|].
  cbn [visited]. destruct (Z.eqb_spec (seen + 1) n) as [E|_]; [lia|].
  now rewrite IH by lia.
Qed.

Lemma visited_limitPrefix {A : Type} (n : Z) (l : list A) :
  visited n 0 l = limitPrefix n l.
Proof.
  unfold limitPrefix. destruct (Z.ltb_spec 0 n) as [Hn|Hn].
  - rewrite visited_positive by lia. now rewrite Z.sub_0_r.
  - now apply visited_nonpositive.
Qed.

Lemma limitPrefix_length {A : Type} (n : Z) (l : list A) :
  0 < n -> Z.of_nat (length (limitPrefix n l)) <= n.
Proof.
  intros Hn. unfold limitPrefix. destruct (Z.ltb_spec 0 n) as [_|?]; [|lia].
  rewrite length_take. lia.
Qed.

Section PrefixFacts.
Context `{codec : AddressCodec} `{lim : SdkIntLimit}.

(** X8: [GetBatchFeesByTokenType] looks at the first [n] transfers of the
    token's pool in priority order when [n] is positive (at all of them when
    the pool has fewer) and at the whole pool when [n] is zero or negative.
    When the fees of these transfers are non-negative, it returns their
    total and changes nothing if the total is below 2^[maxBitLen], and it
    panics otherwise. *)
Theorem GetBatchFees_sums_prefix (T : Address) (n : Z) (c : Ctx) :
  Forall (fun t => 0 <= Amount (Erc20Fee t))
    (if 0 <? n then take (Z.to_nat n) (pool_scan c T) else pool_scan c T) ->
  GetBatchFeesByTokenType T n c
  = if sumFees (if 0 <? n then take (Z.to_nat n) (pool_scan c T) else pool_scan c T)
       <? 2 ^ Z.of_N maxBitLen
    then Ok (sumFees (if 0 <? n then take (Z.to_nat n) (pool_scan c T)
                      else pool_scan c T), c)
    else Panic.
Proof.
  intros Hnn. change (if 0 <? n then take (Z.to_nat n) (pool_scan c T) else pool_scan c T)
    with (limitPrefix n (pool_scan c T)) in *.
  rewrite GetBatchFeesByTokenType_eq, visited_limitPrefix.
  rewrite addFees_nonneg by (try split; try lia; try exact Hnn; apply limit_pos).
  rewrite Z.add_0_l. now destruct (_ <? _).
Qed.

(** What [BuildBatchTx] did when it returned a batch. *)
Lemma BuildBatchTx_inv (c c' : Ctx) (T : Address) (n : Z) (batch : BatchTx) :
  BuildBatchTx T n c = Ok (Some batch, c') ->
  exists last nonce timeout c1 c2,
    GetLastOutgoingBatchByTokenType T c = Ok (last, c) /\
    guardAborts last (sumFees (limitPrefix n (pool_scan c T))) = false /\
    IncrementLastOutgoingBatchNonce c = Ok (nonce, c1) /\
    getBatchTimeoutHeight c = Ok (timeout, c2) /\
    batch = builtBatch c T (limitPrefix n (pool_scan c T)) nonce timeout /\
    c' = builtCtx c T (limitPrefix n (pool_scan c T)) nonce timeout.
Proof.
  intros Hbuild.
  destruct (GetLastOutgoingBatchByTokenType T c) as [[last c0]|] eqn:Hlast.
  2:{ unfold BuildBatchTx in Hbuild. now rewrite (bind_Panic _ _ _ Hlast) in Hbuild. }
  pose proof (GetLastOutgoingBatchByTokenType_readonly T c c0 last Hlast) as ->.
  apply (BuildBatchTx_run_Ok c _ T n last _ Hlast) in Hbuild.
  rewrite visited_limitPrefix in Hbuild.
  destruct (guardAborts last _) eqn:G; [discriminate|].
  destruct (IncrementLastOutgoingBatchNonce c) as [[nonce c1]|]; [|discriminate].
  destruct (getBatchTimeoutHeight c) as [[timeout c2]|]; [|discriminate].
  injection Hbuild as <- <-. now exists last, nonce, timeout, c1, c2.
Qed.

(** X9: a batch built by [BuildBatchTx T n] holds, in priority order, the
    first [n] transfers of the pool of [T] when [n] is positive (so at most
    [n] of them) and the whole pool when [n] is zero or negative; it carries
    the printed form of [T] and the current home height. *)
Theorem BuildBatch_selects_prefix (c c' : Ctx) (T : Address) (n : Z) (batch : BatchTx) :
  BuildBatchTx T n c = Ok (Some batch, c') ->
  Transactions batch
  = (if 0 <? n then take (Z.to_nat n) (pool_scan c T) else pool_scan c T) /\
  (0 < n -> Z.of_nat (length (Transactions batch)) <= n) /\
  TokenContract batch = Hex T /\
  Height batch = uint64_of_int64 (BlockHeight c).
Proof.
  intros Hbuild.
  apply BuildBatchTx_inv in Hbuild
    as (last & nonce & timeout & c1 & c2 & _ & _ & _ & _ & -> & _).
  cbn [builtBatch Transactions TokenContract Height]. split_and!; try reflexivity.
  apply limitPrefix_length.
Qed.

End PrefixFacts.

Lemma BuildBatch_selects_prefix_witness :
  Transactions (builtBatch poolCtx 5%N [exampleSte 5%N 2 10; exampleSte 5%N 1 7] 1 3900)
  = (if 0 <? 2 then take (Z.to_nat 2) (pool_scan poolCtx 5%N)
     else pool_scan poolCtx 5%N) /\
  (0 < 2 ->
   Z.of_nat (length (Transactions
      (builtBatch poolCtx 5%N [exampleSte 5%N 2 10; exampleSte 5%N 1 7] 1 3900))) <= 2) /\
  TokenContract (builtBatch poolCtx 5%N [exampleSte 5%N 2 10; exampleSte 5%N 1 7] 1 3900)
  = Hex 5%N /\
  Height (builtBatch poolCtx 5%N [exampleSte 5%N 2 10; exampleSte 5%N 1 7] 1 3900)
  = uint64_of_int64 (BlockHeight poolCtx).
Proof.
  apply (BuildBatch_selects_prefix poolCtx
           (builtCtx poolCtx 5%N [exampleSte 5%N 2 10; exampleSte 5%N 1 7] 1 3900)
           5%N 2).
  vm_compute. reflexivity.
Defined.

Lemma GetBatchFees_sums_prefix_witness :
  GetBatchFeesByTokenType 5%N 2 poolCtx = Ok (17, poolCtx) /\
  GetBatchFeesByTokenType 5%N 0 hugeFeeCtx = Panic.
Proof.
  split.
  - etransitivity.
    + apply (GetBatchFees_sums_prefix 5%N 2 poolCtx).
      vm_compute. repeat constructor; discriminate.
    + vm_compute. reflexivity.
  - etransitivity.
    + apply (GetBatchFees_sums_prefix 5%N 0 hugeFeeCtx).
      vm_compute. repeat constructor; discriminate.
    + vm_compute. reflexivity.
Defined.

(** ** The priority order of the pool *)

Lemma poolKey_geb_spec (k1 k2 : N * Z * Z) :
  poolKey_geb k1 k2 <->
  k2.1.2 < k1.1.2 \/ (k2.1.2 = k1.1.2 /\ k2.2 <= k1.2).
Proof.
  unfold poolKey_geb. rewrite orb_True, andb_True, !Is_true_true.
  rewrite Z.ltb_lt, Z.eqb_eq, Z.leb_le. reflexivity.
Qed.

#[local] Instance poolOrder_total : Total poolOrder.
Proof.
  intros x y. unfold poolOrder. rewrite !poolKey_geb_spec. lia.
Qed.

#[local] Instance poolOrder_trans : Transitive poolOrder.
Proof.
  intros x y z. unfold poolOrder. rewrite !poolKey_geb_spec. lia.
Qed.

Lemma pool_scan_kv_values (c : Ctx) (T : Address) :
  pool_scan c T = (pool_scan_kv c T).*2.
Proof. reflexivity. Qed.

Lemma pool_scan_kv_elem (c : Ctx) (T : Address) (k : N * Z * Z) (v : SendToEthereum) :
  (k, v) ∈ pool_scan_kv c T <-> unbatched c !! k = Some v /\ k.1.1 = T.
Proof.
  unfold pool_scan_kv. rewrite merge_sort_Permutation, list_elem_of_filter.
  rewrite elem_of_map_to_list. cbn. tauto.
Qed.

Lemma pool_scan_kv_sorted (c : Ctx) (T : Address) :
  StronglySorted poolOrder (pool_scan_kv c T).
Proof. apply (StronglySorted_merge_sort poolOrder). Qed.

Lemma pool_scan_kv_NoDup (c : Ctx) (T : Address) : NoDup (pool_scan_kv c T).
Proof.
  unfold pool_scan_kv. rewrite merge_sort_Permutation.
  apply NoDup_filter, NoDup_map_to_list.
Qed.

(** A sorted duplicate-free list with the entries of the pool of a token is
    the scan of that pool. *)
Lemma pool_scan_kv_unique (c : Ctx) (T : Address)
    (l : list (N * Z * Z * SendToEthereum)) :
  StronglySorted poolOrder l ->
  NoDup l ->
  (forall k v, (k, v) ∈ l <-> unbatched c !! k = Some v /\ k.1.1 = T) ->
  pool_scan_kv c T = l.
Proof.
  intros Hsorted Hnd Hmem.
  apply (StronglySorted_unique_strong poolOrder).
  - intros [k1 v1] [k2 v2] H1 H2 R12 R21.
    apply pool_scan_kv_elem in H1 as [H1 T1]. apply Hmem in H2 as [H2 T2].
    unfold poolOrder in R12, R21. rewrite poolKey_geb_spec in R12, R21.
    cbn in *. assert (k1 = k2) as ->.
    { destruct k1 as [[a1 f1] i1], k2 as [[a2 f2] i2]. cbn in *.
      f_equal; [f_equal|]; [congruence | lia | lia]. }
    congruence.
  - apply pool_scan_kv_sorted.
  - exact Hsorted.
  - apply NoDup_Permutation; [apply pool_scan_kv_NoDup | exact Hnd |].
    intros [k v]. now rewrite pool_scan_kv_elem, Hmem.
Qed.

Section PoolOrderFacts.
Context `{codec : AddressCodec} `{lim : SdkIntLimit}.

Lemma pool_scan_fee_sorted_aux (l : list (N * Z * Z * SendToEthereum)) :
  StronglySorted poolOrder l ->
  (forall k v, (k, v) ∈ l -> k = steKey v) ->
  StronglySorted fee_geq l.*2.
Proof.
  induction 1 as [|[k v] l Hl IH Hhd]; intros Hwf; [constructor|].
  cbn. constructor.
  - apply IH. intros k' v' Hin. apply Hwf. now right.
  - rewrite Forall_fmap. rewrite Forall_forall in Hhd |- *.
    intros [k' v'] Hin. specialize (Hhd _ Hin).
    unfold poolOrder in Hhd. rewrite poolKey_geb_spec in Hhd.
    rewrite (Hwf k v) in Hhd by left.
    rewrite (Hwf k' v') in Hhd by now right.
    unfold fee_geq. cbn in *. lia.
Qed.

(** In a well-keyed pool the scan of a token's pool is fee-descending. *)
Lemma pool_scan_fee_sorted (c : Ctx) (T : Address) :
  pool_well_keyed c -> StronglySorted fee_geq (pool_scan c T).
Proof.
  intros Hwf. rewrite pool_scan_kv_values. apply pool_scan_fee_sorted_aux.
  - apply pool_scan_kv_sorted.
  - intros k v Hin%pool_scan_kv_elem. now apply Hwf.
Qed.

Lemma drain_keys (S : list (N * Z * Z * SendToEthereum))
    (m : gmap (N * Z * Z) SendToEthereum) (k : N * Z * Z) (v : SendToEthereum) :
  (forall k' t, (k', t) ∈ S -> m !! k' = Some t /\ k' = steKey t) ->
  drain S.*2 m !! k = Some v <-> m !! k = Some v /\ (k, v) ∉ S.
Proof.
  intros HS. split.
  - intros Hk. pose proof (lookup_drain_Some _ _ _ _ Hk) as Hm.
    split; [exact Hm|]. intros Hin.
    destruct (HS k v Hin) as [_ ->].
    rewrite lookup_drain_elem in Hk; [discriminate|].
    apply list_elem_of_fmap. now exists (steKey v, v).
  - intros [Hm Hnot]. rewrite lookup_drain_other; [exact Hm|].
    intros t Ht ->. apply list_elem_of_fmap in Ht as ([k' t'] & -> & Hin).
    cbn in *. destruct (HS k' t' Hin) as [Hk' ->].
    rewrite Hk' in Hm. injection Hm as ->. contradiction.
Qed.

Lemma limitPrefix_split {A : Type} (n : Z) (l : list A) :
  exists rest, l = limitPrefix n l ++ rest.
Proof.
  unfold limitPrefix. destruct (0 <? n).
  - exists (drop (Z.to_nat n) l). now rewrite take_drop.
  - exists []. now rewrite app_nil_r.
Qed.

Lemma limitPrefix_fmap {A B : Type} (f : A -> B) (n : Z) (l : list A) :
  limitPrefix n (f <$> l) = f <$> limitPrefix n l.
Proof. unfold limitPrefix. destruct (0 <? n); [now rewrite fmap_take | reflexivity]. Qed.

(** X11: [BuildBatchTx] takes a prefix of the priority order and keeps the
    rest in order: in a well-keyed pool, the pool scan of [T] before the
    call is the batch's transactions followed by the pool scan of [T] after
    the call, and the pool scan of every other token is unchanged. *)
Theorem BuildBatch_splits_pool (c c' : Ctx) (T : Address) (n : Z) (batch : BatchTx) :
  pool_well_keyed c ->
  BuildBatchTx T n c = Ok (Some batch, c') ->
  pool_scan c T = Transactions batch ++ pool_scan c' T /\
  forall T', T' <> T -> pool_scan c' T' = pool_scan c T'.
Proof.
  intros Hwf Hbuild.
  apply BuildBatchTx_inv in Hbuild
    as (last & nonce & timeout & c1 & c2 & _ & _ & _ & _ & -> & ->).
  cbn [builtBatch Transactions].
  rewrite (pool_scan_kv_values c T), limitPrefix_fmap.
  destruct (limitPrefix_split n (pool_scan_kv c T)) as [rest Hsplit].
  set (S := limitPrefix n (pool_scan_kv c T)) in *. clearbody S.
  assert (HS : forall k' t, (k', t) ∈ S -> unbatched c !! k' = Some t /\ k' = steKey t).
  { intros k' t Hin.
    assert (Hin' : (k', t) ∈ pool_scan_kv c T) by (rewrite Hsplit, elem_of_app; now left).
    apply pool_scan_kv_elem in Hin' as [Hk _]. split; [exact Hk | now apply Hwf]. }
  assert (HST : forall k' t, (k', t) ∈ S -> k'.1.1 = T).
  { intros k' t Hin.
    assert (Hin' : (k', t) ∈ pool_scan_kv c T) by (rewrite Hsplit, elem_of_app; now left).
    now apply pool_scan_kv_elem in Hin' as [_ HT]. }
  pose proof (pool_scan_kv_sorted c T) as Hsorted.
  pose proof (pool_scan_kv_NoDup c T) as Hnd.
  rewrite Hsplit in Hsorted, Hnd. apply NoDup_app in Hnd as (_ & Hdisj & Hnd).
  split.
  - rewrite (pool_scan_kv_values (builtCtx _ _ _ _ _) T).
    rewrite (pool_scan_kv_unique (builtCtx c T S.*2 nonce timeout) T rest).
    + now rewrite Hsplit, fmap_app.
    + now apply StronglySorted_app_1_r in Hsorted.
    + exact Hnd.
    + intros k v. cbn [builtCtx unbatched with_events with_outgoingTxs
                       with_lastOutgoingBatchNonce with_unbatched].
      rewrite (drain_keys S _ k v HS). split.
      * intros Hin.
        assert (Hin' : (k, v) ∈ pool_scan_kv c T)
          by (rewrite Hsplit, elem_of_app; now right).
        apply pool_scan_kv_elem in Hin' as [Hk HT].
        split; [split; [exact Hk|] | exact HT].
        intros HinS. now apply (Hdisj _ HinS).
      * intros [[Hk Hnot] HT].
        assert (Hin' : (k, v) ∈ pool_scan_kv c T) by now apply pool_scan_kv_elem.
        rewrite Hsplit, elem_of_app in Hin'. now destruct Hin'.
  - intros T' HT'. rewrite !pool_scan_kv_values. f_equal.
    apply pool_scan_kv_unique; [apply pool_scan_kv_sorted | apply pool_scan_kv_NoDup |].
    intros k v. cbn [builtCtx unbatched with_events with_outgoingTxs
                     with_lastOutgoingBatchNonce with_unbatched].
    rewrite (drain_keys S _ k v HS), pool_scan_kv_elem. split.
    + intros [Hk HT]. split; [split; [exact Hk|] | exact HT].
      intros HinS. apply HT'. rewrite <- HT. now apply (HST k v).
    + intros [[Hk _] HT]. now split.
Qed.

(** X10: [BuildBatchTx] takes the transfers that pay most: in a well-keyed
    pool, every transfer of a batch it returns carries a fee at least as
    high as every transfer of [T] that is left in the pool after the
    call. *)
Theorem BuildBatch_takes_highest_fees (c c' : Ctx) (T : Address) (n : Z)
    (batch : BatchTx) :
  pool_well_keyed c ->
  BuildBatchTx T n c = Ok (Some batch, c') ->
  forall t u, t ∈ Transactions batch -> u ∈ pool_scan c' T ->
    Amount (Erc20Fee u) <= Amount (Erc20Fee t).
Proof.
  intros Hwf Hbuild t u Ht Hu.
  pose proof (pool_scan_fee_sorted c T Hwf) as Hsorted.
  apply BuildBatchTx_inv in Hbuild
    as (last & nonce & timeout & c1 & c2 & _ & _ & _ & _ & -> & ->).
  cbn [builtBatch Transactions] in Ht.
  apply pool_scan_elem in Hu as (k & Hk & HT).
  cbn [builtCtx unbatched with_events with_outgoingTxs
       with_lastOutgoingBatchNonce with_unbatched] in Hk.
  pose proof (lookup_drain_Some _ _ _ _ Hk) as Hk0.
  assert (Hin : u ∈ pool_scan c T) by (apply pool_scan_elem; eauto).
  destruct (limitPrefix_split n (pool_scan c T)) as [rest Hsplit].
  set (P := limitPrefix n (pool_scan c T)) in *.
  assert (Hnot : u ∉ P).
  { intros HinP. rewrite (Hwf k u Hk0) in Hk.
    now rewrite (lookup_drain_elem _ _ _ HinP) in Hk. }
  rewrite Hsplit in Hsorted, Hin.
  apply elem_of_app in Hin as [Hin|Hin]; [contradiction|].
  exact (StronglySorted_app_1_elem_of _ _ _ _ _ Hsorted Ht Hin).
Qed.

End PoolOrderFacts.

Lemma BuildBatch_takes_highest_fees_witness :
  Amount (Erc20Fee (exampleSte 5%N 3 3)) <= Amount (Erc20Fee (exampleSte 5%N 1 7)).
Proof.
  apply (BuildBatch_takes_highest_fees poolCtx
           (builtCtx poolCtx 5%N [exampleSte 5%N 2 10; exampleSte 5%N 1 7] 1 3900)
           5%N 2
           (builtBatch poolCtx 5%N [exampleSte 5%N 2 10; exampleSte 5%N 1 7] 1 3900)).
  - exact pool_well_keyed_poolCtx.
  - vm_compute. reflexivity.
  - cbn [builtBatch Transactions]. right. left.
  - replace (pool_scan (builtCtx poolCtx 5%N [exampleSte 5%N 2 10; exampleSte 5%N 1 7] 1 3900) 5%N)
      with [exampleSte 5%N 3 3] by (vm_compute; reflexivity).
    left.
Defined.

Lemma BuildBatch_splits_pool_witness :
  pool_scan poolCtx 5%N
  = Transactions (builtBatch poolCtx 5%N [exampleSte 5%N 2 10; exampleSte 5%N 1 7] 1 3900)
    ++ pool_scan (builtCtx poolCtx 5%N [exampleSte 5%N 2 10; exampleSte 5%N 1 7] 1 3900) 5%N /\
  forall T', T' <> 5%N ->
    pool_scan (builtCtx poolCtx 5%N [exampleSte 5%N 2 10; exampleSte 5%N 1 7] 1 3900) T'
    = pool_scan poolCtx T'.
Proof.
  apply (BuildBatch_splits_pool poolCtx
           (builtCtx poolCtx 5%N [exampleSte 5%N 2 10; exampleSte 5%N 1 7] 1 3900)
           5%N 2).
  - exact pool_well_keyed_poolCtx.
  - vm_compute. reflexivity.
Defined.

(** ** Invariants *)

Lemma wrap64_range (z : Z) : 0 <= wrap64 z < 2 ^ 64.
Proof. unfold wrap64. apply Z.mod_pos_bound. lia. Qed.

Lemma Increment_inv (c c1 : Ctx) (n : Z) :
  IncrementLastOutgoingBatchNonce c = Ok (n, c1) ->
  0 <= n < 2 ^ 64 /\
  c1 = with_lastOutgoingBatchNonce (Some (Uint64ToBigEndian n)) c.
Proof.
  unfold IncrementLastOutgoingBatchNonce, bind, get, lift, modify, ret.
  destruct (lastOutgoingBatchNonce c) as [bz|].
  - destruct (BigEndianUint64 bz) as [id|]; [|discriminate].
    intros [= <- <-]. split; [apply wrap64_range | reflexivity].
  - intros [= <- <-]. split; [apply wrap64_range | reflexivity].
Qed.

Section InvariantFacts.
Context `{codec : AddressCodec} `{lim : SdkIntLimit}.

Lemma BuildBatchTx_None_inv (c c' : Ctx) (T : Address) (n : Z) :
  BuildBatchTx T n c = Ok (None, c') -> c' = c.
Proof.
  intros Hbuild.
  destruct (GetLastOutgoingBatchByTokenType T c) as [[last c0]|] eqn:Hlast.
  2:{ unfold BuildBatchTx in Hbuild. now rewrite (bind_Panic _ _ _ Hlast) in Hbuild. }
  pose proof (GetLastOutgoingBatchByTokenType_readonly T c c0 last Hlast) as ->.
  apply (BuildBatchTx_run_Ok c _ T n last _ Hlast) in Hbuild.
  destruct (guardAborts last _); [now injection Hbuild|].
  destruct (IncrementLastOutgoingBatchNonce c) as [[nonce c1]|]; [|discriminate].
  destruct (getBatchTimeoutHeight c) as [[timeout c2]|]; discriminate.
Qed.

Lemma CancelBatchTx_inv (c c' : Ctx) (T : Address) (k : Z) :
  CancelBatchTx T k c = Ok (tt, c') ->
  exists b, outgoingTxs c !! (T, k) = Some (OtxBatch b) /\ c' = cancelledCtx c k b.
Proof.
  intros Hrun. destruct (outgoingTxs c !! (T, k)) as [[b| |]|] eqn:Hb.
  - rewrite (CancelBatchTx_run c T k b Hb) in Hrun. injection Hrun as <-. now exists b.
  - unfold CancelBatchTx, GetOutgoingTx, MakeBatchTxKey in Hrun.
    unfold bind at 1 in Hrun. unfold bind at 1 in Hrun.
    unfold get at 1, ret at 1 in Hrun. cbn beta iota in Hrun.
    now rewrite Hb in Hrun.
  - unfold CancelBatchTx, GetOutgoingTx, MakeBatchTxKey in Hrun.
    unfold bind at 1 in Hrun. unfold bind at 1 in Hrun.
    unfold get at 1, ret at 1 in Hrun. cbn beta iota in Hrun.
    now rewrite Hb in Hrun.
  - now rewrite (CancelBatchTx_missing c T k Hb) in Hrun.
Qed.

Lemma lookup_requeue_Some (l : list SendToEthereum)
    (m : gmap (N * Z * Z) SendToEthereum) (k : N * Z * Z) (v : SendToEthereum) :
  requeue l m !! k = Some v -> m !! k = Some v \/ k = steKey v.
Proof.
  revert m. induction l as [|t l IH]; intros m; [now left|].
  change (requeue (t :: l) m) with (requeue l (<[steKey t := t]> m)).
  intros [H | H]%IH; [|now right].
  apply lookup_insert_Some in H as [[<- <-] | [_ H]]; [now right | now left].
Qed.

Lemma keeper_wf_cancelled (c : Ctx) (k : Z) (b : BatchTx) :
  keeper_wf c -> keeper_wf (cancelledCtx c k b).
Proof.
  intros (Hpool & Hstore & Hall). unfold cancelledCtx. split_and!.
  - intros pk ste Hk. cbn in Hk.
    apply lookup_requeue_Some in Hk as [Hk | Hk]; [now apply Hpool | exact Hk].
  - intros key b0 Hk. cbn in Hk. apply lookup_delete_Some in Hk as [_ Hk].
    now apply Hstore.
  - intros key otx Hk. cbn in Hk. apply lookup_delete_Some in Hk as [_ Hk].
    now apply (Hall key).
Qed.

(** X12: [BuildBatchTx] keeps the store invariants: after a call that
    returns, pool entries and batches still sit under their own keys and
    every record under the batch prefix is a batch; and when the nonces of
    the outstanding batches were in the [uint64] range, they still are, the
    nonce of the new batch included. *)
Theorem BuildBatch_keeps_invariants (c c' : Ctx) (T : Address) (n : Z)
    (r : option BatchTx) :
  keeper_wf c ->
  BuildBatchTx T n c = Ok (r, c') ->
  keeper_wf c' /\ (nonces_uint64 c -> nonces_uint64 c').
Proof.
  intros Hwf Hbuild. destruct r as [batch|].
  2:{ now rewrite (BuildBatchTx_None_inv c c' T n Hbuild). }
  destruct Hwf as (Hpool & Hstore & Hall).
  apply BuildBatchTx_inv in Hbuild
    as (last & nonce & timeout & c1 & c2 & _ & _ & Hinc & _ & _ & ->).
  apply Increment_inv in Hinc as [Hrange _].
  unfold builtCtx. split; [split_and!|].
  - intros pk ste Hk. cbn in Hk. apply lookup_drain_Some in Hk. now apply Hpool.
  - intros key b0 Hk. cbn in Hk.
    apply lookup_insert_Some in Hk as [[<- [= <-]] | [_ Hk]]; [|now apply Hstore].
    unfold GetStoreIndex, MakeBatchTxKey, builtBatch. cbn.
    now rewrite HexToAddress_Hex.
  - intros key otx Hk. cbn in Hk.
    apply lookup_insert_Some in Hk as [[<- <-] | [_ Hk]]; [|now apply (Hall key)].
    eexists. split; [reflexivity|]. cbn. lia.
  - intros Hnonces key b0 Hk. cbn in Hk.
    apply lookup_insert_Some in Hk as [[<- [= <-]] | [_ Hk]];
      [exact Hrange | now apply (Hnonces key)].
Qed.

Lemma CancelBatchTx_keeps_wf (c c' : Ctx) (T : Address) (k : Z) :
  keeper_wf c -> CancelBatchTx T k c = Ok (tt, c') -> keeper_wf c'.
Proof.
  intros Hwf Hrun. apply CancelBatchTx_inv in Hrun as (b & _ & ->).
  now apply keeper_wf_cancelled.
Qed.

(** X13: [CancelBatchTx] keeps the store invariants: the transfers it puts
    back sit under the keys of their own id and fee, and the records it
    leaves are the ones that were there. *)
Theorem CancelBatch_keeps_invariants (c c' : Ctx) (T : Address) (k : Z) :
  keeper_wf c ->
  CancelBatchTx T k c = Ok (tt, c') ->
  keeper_wf c'.
Proof. apply CancelBatchTx_keeps_wf. Qed.

Lemma cancelEarlierVisitor_keeps_wf (T : Address) (batchTx : option BatchTx)
    (kv : N * Z * OutgoingTx) (c c' : Ctx) (r : unit * bool) :
  keeper_wf c ->
  cancelEarlierVisitor T batchTx kv tt c = Ok (r, c') ->
  r.2 = false /\ keeper_wf c'.
Proof.
  unfold cancelEarlierVisitor. intros Hwf Hrun.
  destruct (asBatchTx (Some kv.2)) as [btx|]; [|discriminate].
  destruct batchTx as [b|]; [|discriminate].
  cbn [deref] in Hrun. unfold bind at 1, ret at 1 in Hrun.
  unfold bind at 1, ret at 1 in Hrun.
  destruct (Nonce btx <? Nonce b).
  - unfold bind at 2, ret at 1 in Hrun.
    destruct (String.eqb (TokenContract b) (Hex T)).
    + unfold bind in Hrun.
      destruct (CancelBatchTx T (Nonce btx) c) as [[[] c0]|] eqn:Hc; [|discriminate].
      injection Hrun as <- <-. split; [reflexivity|].
      now apply (CancelBatchTx_keeps_wf c c0 T (Nonce btx)).
    + injection Hrun as <- <-. now split.
  - injection Hrun as <- <-. now split.
Qed.

Lemma visit_cancelEarlier_keeps_wf (T : Address) (batchTx : option BatchTx)
    (l : list (N * Z * OutgoingTx)) :
  forall c c', keeper_wf c ->
    visit (cancelEarlierVisitor T batchTx) l tt c = Ok (tt, c') ->
    keeper_wf c'.
Proof.
  induction l as [|kv l IH]; intros c c' Hwf Hrun.
  - now injection Hrun as <-.
  - cbn [visit] in Hrun. unfold bind in Hrun.
    destruct (cancelEarlierVisitor T batchTx kv tt c) as [[r c0]|] eqn:Hv;
      [|discriminate].
    destruct (cancelEarlierVisitor_keeps_wf T batchTx kv c c0 r Hwf Hv) as [Hstop Hwf0].
    rewrite Hstop in Hrun. destruct r as [[] ?]. now apply (IH c0 c').
Qed.

(** X14: [BatchTxExecuted] keeps the store invariants, whatever it cancels
    on the way. *)
Theorem BatchTxExecuted_keeps_invariants (c c' : Ctx) (T : Address) (k : Z) :
  keeper_wf c ->
  BatchTxExecuted T k c = Ok (tt, c') ->
  keeper_wf c'.
Proof.
  intros Hwf. unfold BatchTxExecuted, GetOutgoingTx, MakeBatchTxKey.
  unfold bind at 1. unfold bind at 1. unfold get at 1, ret at 1. cbn beta iota.
  unfold IterateOutgoingTxs.
  unfold bind at 1. unfold bind at 1. unfold bind at 1. unfold get at 1.
  destruct (visit _ _ _ c) as [[[] c0]|] eqn:Hv; [|discriminate].
  apply visit_cancelEarlier_keeps_wf in Hv; [|exact Hwf].
  destruct (asBatchTx (outgoingTxs c !! (T, k))) as [b|]; [|discriminate].
  cbn [deref]. unfold bind, ret, DeleteOutgoingTx, modify. intros [= <-].
  destruct Hv as (Hpool & Hstore & Hall). split_and!.
  - exact Hpool.
  - intros key b0 Hk. cbn in Hk. apply lookup_delete_Some in Hk as [_ Hk].
    now apply Hstore.
  - intros key otx Hk. cbn in Hk. apply lookup_delete_Some in Hk as [_ Hk].
    now apply (Hall key).
Qed.

End InvariantFacts.

Lemma keeper_wf_poolCtx : keeper_wf poolCtx.
Proof.
  split_and!; [exact pool_well_keyed_poolCtx | |].
  - intros k b Hk. cbn in Hk. now rewrite lookup_empty in Hk.
  - intros k otx Hk. cbn in Hk. now rewrite lookup_empty in Hk.
Qed.

Lemma keeper_wf_batchedCtx : keeper_wf batchedCtx.
Proof.
  split_and!.
  - intros k ste Hk. cbn in Hk.
    apply lookup_insert_Some in Hk as [[<- <-] | [_ Hk]]; [reflexivity|].
    now rewrite lookup_empty in Hk.
  - intros k b Hk. cbn in Hk.
    apply lookup_insert_Some in Hk as [[<- [= <-]] | [_ Hk]]; [reflexivity|].
    now rewrite lookup_empty in Hk.
  - intros k otx Hk. cbn in Hk.
    apply lookup_insert_Some in Hk as [[<- <-] | [_ Hk]];
      [eexists; split; [reflexivity | cbn; lia] |].
    now rewrite lookup_empty in Hk.
Qed.

Lemma keeper_wf_threeBatchCtx : keeper_wf threeBatchCtx.
Proof.
  split_and!;
    [|exact store_well_keyed_threeBatchCtx | exact all_batches_threeBatchCtx].
  intros k ste Hk. cbn in Hk. now rewrite lookup_empty in Hk.
Qed.

Lemma BuildBatch_keeps_invariants_witness :
  keeper_wf (builtCtx poolCtx 5%N [exampleSte 5%N 2 10; exampleSte 5%N 1 7] 1 3900) /\
  (nonces_uint64 poolCtx ->
   nonces_uint64 (builtCtx poolCtx 5%N [exampleSte 5%N 2 10; exampleSte 5%N 1 7] 1 3900)).
Proof.
  apply (BuildBatch_keeps_invariants poolCtx
           (builtCtx poolCtx 5%N [exampleSte 5%N 2 10; exampleSte 5%N 1 7] 1 3900)
           5%N 2
           (Some (builtBatch poolCtx 5%N [exampleSte 5%N 2 10; exampleSte 5%N 1 7] 1 3900))).
  - exact keeper_wf_poolCtx.
  - vm_compute. reflexivity.
Defined.

Lemma CancelBatch_keeps_invariants_witness :
  keeper_wf (cancelledCtx batchedCtx 1
               (exampleBatch 5%N 1 [exampleSte 5%N 2 10; exampleSte 5%N 1 7])).
Proof.
  apply (CancelBatch_keeps_invariants batchedCtx
           (cancelledCtx batchedCtx 1
              (exampleBatch 5%N 1 [exampleSte 5%N 2 10; exampleSte 5%N 1 7]))
           5%N 1).
  - exact keeper_wf_batchedCtx.
  - vm_compute. reflexivity.
Defined.

Lemma BatchTxExecuted_keeps_invariants_witness : keeper_wf executedCtx.
Proof.
  apply (BatchTxExecuted_keeps_invariants threeBatchCtx executedCtx 5%N 2).
  - exact keeper_wf_threeBatchCtx.
  - vm_compute. reflexivity.
Defined.

(** ** What [BuildBatchTx] moves *)

Section BuildFrame.
Context `{codec : AddressCodec} `{lim : SdkIntLimit}.

(** X15: in a well-keyed pool, a transfer taken into a batch by
    [BuildBatchTx] was in the pool of [T] under its own key and is no longer
    in the pool; every other pool entry, of any token, stays as it was; and
    the batch store gains the new batch under (T, nonce) and changes nowhere
    else. *)
Theorem BuildBatch_moves_members (c c' : Ctx) (T : Address) (n : Z) (batch : BatchTx) :
  pool_well_keyed c ->
  BuildBatchTx T n c = Ok (Some batch, c') ->
  (forall ste, ste ∈ Transactions batch ->
     unbatched c !! steKey ste = Some ste /\ (steKey ste).1.1 = T) /\
  (forall k ste, unbatched c' !! k = Some ste <->
     unbatched c !! k = Some ste /\ ste ∉ Transactions batch) /\
  outgoingTxs c' = <[(T, Nonce batch) := OtxBatch batch]> (outgoingTxs c).
Proof.
  intros Hwf Hbuild.
  apply BuildBatchTx_inv in Hbuild
    as (last & nonce & timeout & c1 & c2 & _ & _ & _ & _ & -> & ->).
  cbn [builtBatch Transactions Nonce].
  set (sel := limitPrefix n (pool_scan c T)).
  assert (Hsel : forall ste, ste ∈ sel ->
            unbatched c !! steKey ste = Some ste /\ (steKey ste).1.1 = T).
  { intros ste Hin.
    assert (Hin' : ste ∈ pool_scan c T).
    { destruct (limitPrefix_split n (pool_scan c T)) as [rest Hsplit].
      rewrite Hsplit, elem_of_app. now left. }
    apply pool_scan_elem in Hin' as (k & Hk & HT).
    rewrite <- (Hwf k ste Hk). now split. }
  split_and!; [exact Hsel | | reflexivity].
  intros k ste. cbn [builtCtx unbatched with_events with_outgoingTxs
                     with_lastOutgoingBatchNonce with_unbatched]. split.
  - intros Hk. pose proof (lookup_drain_Some _ _ _ _ Hk) as Hm.
    split; [exact Hm|]. intros Hin.
    rewrite (Hwf k ste Hm) in Hk. now rewrite (lookup_drain_elem _ _ _ Hin) in Hk.
  - intros [Hm Hnot]. rewrite lookup_drain_other; [exact Hm|].
    intros t Ht ->. destruct (Hsel t Ht) as [Hkt _].
    rewrite Hkt in Hm. injection Hm as ->. contradiction.
Qed.

(** ** Nonces across calls *)

(** X16: the nonce counter is global: when two calls of [BuildBatchTx]
    follow each other and both build a batch, for the same token or for two
    tokens, the second nonce is the first plus one (modulo 2^64). *)
Theorem BuildBatch_nonces_consecutive (c c1 c2 : Ctx) (T1 T2 : Address) (n1 n2 : Z)
    (b1 b2 : BatchTx) :
  BuildBatchTx T1 n1 c = Ok (Some b1, c1) ->
  BuildBatchTx T2 n2 c1 = Ok (Some b2, c2) ->
  0 <= Nonce b1 < 2 ^ 64 /\ Nonce b2 = wrap64 (Nonce b1 + 1).
Proof.
  intros H1 H2.
  apply BuildBatchTx_inv in H1
    as (last1 & nonce1 & t1 & d1 & e1 & _ & _ & Hinc1 & _ & -> & ->).
  apply BuildBatchTx_inv in H2
    as (last2 & nonce2 & t2 & d2 & e2 & _ & _ & Hinc2 & _ & -> & _).
  apply Increment_inv in Hinc1 as [Hrange _].
  cbn [builtBatch Nonce]. split; [exact Hrange|].
  rewrite (Increment_stored _ nonce1 Hrange) in Hinc2 by reflexivity.
  now injection Hinc2.
Qed.

End BuildFrame.

(** X17: a call of [IncrementLastOutgoingBatchNonce] that returns [n],
    from whatever counter cell it found, returns a [uint64], writes only the
    counter cell, and makes the next call return [n + 1] modulo 2^64. *)
Theorem Increment_then_Increment (c c1 : Ctx) (n : Z) :
  IncrementLastOutgoingBatchNonce c = Ok (n, c1) ->
  0 <= n < 2 ^ 64 /\
  c1 = with_lastOutgoingBatchNonce (Some (Uint64ToBigEndian n)) c /\
  IncrementLastOutgoingBatchNonce c1
  = Ok (wrap64 (n + 1),
        with_lastOutgoingBatchNonce (Some (Uint64ToBigEndian (wrap64 (n + 1)))) c).
Proof.
  intros Hinc. apply Increment_inv in Hinc as [Hrange ->].
  split; [exact Hrange|]. split; [reflexivity|].
  now rewrite (Increment_stored _ n Hrange) by reflexivity.
Qed.

Lemma BuildBatch_moves_members_witness :
  (forall ste,
     ste ∈ Transactions
             (builtBatch poolCtx 5%N [exampleSte 5%N 2 10; exampleSte 5%N 1 7] 1 3900) ->
     unbatched poolCtx !! steKey ste = Some ste /\ (steKey ste).1.1 = 5%N) /\
  (forall k ste,
     unbatched (builtCtx poolCtx 5%N [exampleSte 5%N 2 10; exampleSte 5%N 1 7] 1 3900)
       !! k = Some ste <->
     unbatched poolCtx !! k = Some ste /\
     ste ∉ Transactions
             (builtBatch poolCtx 5%N [exampleSte 5%N 2 10; exampleSte 5%N 1 7] 1 3900)) /\
  outgoingTxs (builtCtx poolCtx 5%N [exampleSte 5%N 2 10; exampleSte 5%N 1 7] 1 3900)
  = <[(5%N, Nonce (builtBatch poolCtx 5%N
                     [exampleSte 5%N 2 10; exampleSte 5%N 1 7] 1 3900)) :=
       OtxBatch (builtBatch poolCtx 5%N [exampleSte 5%N 2 10; exampleSte 5%N 1 7] 1 3900)]>
      (outgoingTxs poolCtx).
Proof.
  apply (BuildBatch_moves_members poolCtx
           (builtCtx poolCtx 5%N [exampleSte 5%N 2 10; exampleSte 5%N 1 7] 1 3900)
           5%N 2).
  - exact pool_well_keyed_poolCtx.
  - vm_compute. reflexivity.
Defined.

Lemma BuildBatch_nonces_consecutive_witness :
  0 <= Nonce (builtBatch poolCtx 6%N [exampleSte 6%N 4 9] 1 3900) < 2 ^ 64 /\
  Nonce (builtBatch (builtCtx poolCtx 6%N [exampleSte 6%N 4 9] 1 3900) 5%N
           [exampleSte 5%N 2 10; exampleSte 5%N 1 7] 2 3900)
  = wrap64 (Nonce (builtBatch poolCtx 6%N [exampleSte 6%N 4 9] 1 3900) + 1).
Proof.
  apply (BuildBatch_nonces_consecutive poolCtx
           (builtCtx poolCtx 6%N [exampleSte 6%N 4 9] 1 3900)
           (builtCtx (builtCtx poolCtx 6%N [exampleSte 6%N 4 9] 1 3900) 5%N
              [exampleSte 5%N 2 10; exampleSte 5%N 1 7] 2 3900)
           6%N 5%N 100 2).
  - vm_compute. reflexivity.
  - vm_compute. reflexivity.
Defined.

Lemma Increment_then_Increment_witness :
  0 <= 1 < 2 ^ 64 /\
  with_lastOutgoingBatchNonce (Some (Uint64ToBigEndian 1)) freshCtx
  = with_lastOutgoingBatchNonce (Some (Uint64ToBigEndian 1)) freshCtx /\
  IncrementLastOutgoingBatchNonce
    (with_lastOutgoingBatchNonce (Some (Uint64ToBigEndian 1)) freshCtx)
  = Ok (wrap64 (1 + 1),
        with_lastOutgoingBatchNonce (Some (Uint64ToBigEndian (wrap64 (1 + 1)))) freshCtx).
Proof.
  apply (Increment_then_Increment freshCtx
           (with_lastOutgoingBatchNonce (Some (Uint64ToBigEndian 1)) freshCtx) 1).
  reflexivity.
Defined.

(** ** The current batch after a build *)

Section CurrentBatchFacts.
Context `{codec : AddressCodec} `{lim : SdkIntLimit}.

Lemma lastBatchVisitor_stray (T : Address) (k : N * Z) (otx : OutgoingTx)
    (acc : option BatchTx * Z) (c : Ctx) :
  asBatchTx (Some otx) = None -> lastBatchVisitor T (k, otx) acc c = Panic.
Proof. destruct otx; [discriminate | reflexivity | reflexivity]. Qed.

Lemma lastBatchVisitor_never_stops (T : Address) (kv : N * Z * OutgoingTx)
    (acc : option BatchTx * Z) (c c' : Ctx) (r : option BatchTx * Z * bool) :
  lastBatchVisitor T kv acc c = Ok (r, c') -> r.2 = false.
Proof.
  destruct kv as [k [b| |]]; [|discriminate..].
  rewrite lastBatchVisitor_batch. now intros [= <- _].
Qed.

Lemma visit_lastBatchVisitor_panic_inv (T : Address) (l : list (N * Z * OutgoingTx)) :
  forall acc c,
    visit (lastBatchVisitor T) l acc c = Panic ->
    exists k otx, (k, otx) ∈ l /\ asBatchTx (Some otx) = None.
Proof.
  induction l as [|[k otx] l IH]; intros acc c Hrun; [discriminate|].
  destruct otx as [b| |].
  - cbn [visit] in Hrun. unfold bind in Hrun.
    rewrite lastBatchVisitor_batch in Hrun. cbn [fst snd] in Hrun.
    apply IH in Hrun as (k' & otx' & Hin & Hs). exists k', otx'.
    split; [now right | exact Hs].
  - exists k, (OtxSignerSet nonce). split; [left | reflexivity].
  - exists k, (OtxContractCall scope nonce). split; [left | reflexivity].
Qed.

(** X18: [GetLastOutgoingBatchByTokenType] panics exactly when some record
    under the batch prefix is not a batch, for whichever token it is
    asked. *)
Theorem GetCurrentBatch_panics_iff_stray_record (T : Address) (c : Ctx) :
  GetLastOutgoingBatchByTokenType T c = Panic <->
  exists k otx, outgoingTxs c !! k = Some otx /\ asBatchTx (Some otx) = None.
Proof.
  unfold GetLastOutgoingBatchByTokenType, IterateOutgoingTxs. split.
  - unfold bind at 1. unfold bind at 1. unfold get at 1.
    destruct (visit _ _ _ c) as [[r c0]|] eqn:Hv; [discriminate|]. intros _.
    apply visit_lastBatchVisitor_panic_inv in Hv as (k & otx & Hin & Hs).
    exists k, otx. split; [now apply outgoing_scan_elem | exact Hs].
  - intros (k & otx & Hk & Hs).
    unfold bind at 1. unfold bind at 1. unfold get at 1.
    rewrite (visit_panics (lastBatchVisitor T) (outgoing_scan c) (k, otx));
      [reflexivity | | |].
    + intros acc c0. now apply lastBatchVisitor_stray.
    + intros y acc c0 r c'. apply lastBatchVisitor_never_stops.
    + now apply outgoing_scan_elem.
Qed.

(** What the scan for the current batch returns in a store of batches. *)
Lemma GetLast_result (c : Ctx) (T : Address) :
  all_batches c ->
  exists r : option BatchTx,
    GetLastOutgoingBatchByTokenType T c = Ok (r, c) /\
    (forall b, r = Some b ->
       outstanding c T b /\ forall b', outstanding c T b' -> Nonce b' <= Nonce b) /\
    (r = None -> forall b', outstanding c T b' -> Nonce b' <= 0).
Proof.
  intros Hall.
  destruct (visit_lastBatchVisitor T (outgoing_scan c) None 0 c)
    as (lb & ln & Hrun & Hsome & Hnone & _ & Hmax).
  - intros k otx Hin. apply (Hall k). now apply outgoing_scan_elem.
  - discriminate.
  - reflexivity.
  - assert (Hbound : forall b', outstanding c T b' -> Nonce b' <= ln).
    { intros b' [[k Hk] HT].
      apply (Hmax k b'); [now apply outgoing_scan_elem | exact HT]. }
    exists lb. split; [|split].
    + unfold GetLastOutgoingBatchByTokenType, IterateOutgoingTxs.
      unfold bind at 1. unfold bind at 1. unfold get at 1. now rewrite Hrun.
    + intros b ->. destruct (Hsome b eq_refl) as (Hn & _ & [?|(HT & k & Hin)]);
        [discriminate|].
      split; [split; [exists k; now apply outgoing_scan_elem | exact HT]|].
      intros b' Hb'. specialize (Hbound b' Hb'). lia.
    + intros -> b' Hb'. specialize (Hnone eq_refl). specialize (Hbound b' Hb'). lia.
Qed.

(** X19: the batch that [BuildBatchTx] has just built is the current batch
    of its token: in a store of batches, when the new nonce is nonzero and
    above the nonces of the token's outstanding batches,
    [GetLastOutgoingBatchByTokenType] called next returns that batch. *)
Theorem BuildBatch_becomes_current (c c' : Ctx) (T : Address) (n : Z) (batch : BatchTx) :
  all_batches c ->
  BuildBatchTx T n c = Ok (Some batch, c') ->
  0 < Nonce batch ->
  (forall b0, outstanding c T b0 -> Nonce b0 < Nonce batch) ->
  GetLastOutgoingBatchByTokenType T c' = Ok (Some batch, c').
Proof.
  intros Hall Hbuild Hpos Hbelow.
  apply BuildBatchTx_inv in Hbuild
    as (last & nonce & timeout & c1 & c2 & _ & _ & _ & _ & -> & ->).
  cbn [builtBatch Nonce] in Hpos, Hbelow.
  set (sel := limitPrefix n (pool_scan c T)) in *.
  set (batch := builtBatch c T sel nonce timeout).
  set (c' := builtCtx c T sel nonce timeout).
  assert (Hstore : outgoingTxs c' = <[(T, nonce) := OtxBatch batch]> (outgoingTxs c))
    by reflexivity.
  assert (Hall' : all_batches c').
  { intros k otx Hk. rewrite Hstore in Hk.
    apply lookup_insert_Some in Hk as [[_ <-] | [_ Hk]]; [|now apply (Hall k)].
    exists batch. split; [reflexivity | cbn; lia]. }
  assert (Hout : outstanding c' T batch).
  { split; [exists (T, nonce); rewrite Hstore; apply lookup_insert_eq|].
    cbn. apply HexToAddress_Hex. }
  destruct (GetLast_result c' T Hall') as (r & Hrun & Hsome & Hnone).
  rewrite Hrun. do 2 f_equal. destruct r as [b'|].
  - destruct (Hsome b' eq_refl) as [[[k Hk] HT] Hmax].
    rewrite Hstore in Hk.
    apply lookup_insert_Some in Hk as [[_ [= <-]] | [_ Hk]]; [reflexivity|].
    specialize (Hmax batch Hout). cbn in Hmax.
    assert (Nonce b' < nonce); [|lia].
    apply Hbelow. split; [now exists k | exact HT].
  - specialize (Hnone eq_refl batch Hout). cbn in Hnone. lia.
Qed.

End CurrentBatchFacts.

Lemma BuildBatch_becomes_current_witness :
  GetLastOutgoingBatchByTokenType 5%N
    (builtCtx poolCtx 5%N [exampleSte 5%N 2 10; exampleSte 5%N 1 7] 1 3900)
  = Ok (Some (builtBatch poolCtx 5%N [exampleSte 5%N 2 10; exampleSte 5%N 1 7] 1 3900),
        builtCtx poolCtx 5%N [exampleSte 5%N 2 10; exampleSte 5%N 1 7] 1 3900).
Proof.
  apply (BuildBatch_becomes_current poolCtx
           (builtCtx poolCtx 5%N [exampleSte 5%N 2 10; exampleSte 5%N 1 7] 1 3900)
           5%N 2).
  - apply keeper_wf_poolCtx.
  - vm_compute. reflexivity.
  - cbn. lia.
  - intros b0 [[k Hk] _]. cbn in Hk. now rewrite lookup_empty in Hk.
Defined.

(** ** When the keeper panics *)

Lemma Increment_panics_iff (c : Ctx) :
  IncrementLastOutgoingBatchNonce c = Panic <->
  exists bz, lastOutgoingBatchNonce c = Some bz /\ (length bz < 8)%nat.
Proof.
  unfold IncrementLastOutgoingBatchNonce, bind, get, lift, modify, ret.
  destruct (lastOutgoingBatchNonce c) as [bz|].
  - unfold BigEndianUint64. destruct (Nat.ltb_spec (length bz) 8) as [Hlt|Hge].
    + split; [intros _; now exists bz | reflexivity].
    + split; [discriminate | intros (bz' & [= <-] & ?); lia].
  - split; [discriminate | now intros (bz & ? & _)].
Qed.

Lemma getBatchTimeoutHeight_panics_iff (c : Ctx) :
  getBatchTimeoutHeight c = Panic <->
  CosmosHeight (lastObserved c) <> 0 /\
  EthereumHeight (lastObserved c) <> 0 /\
  AverageEthereumBlockTime (params c) = 0.
Proof.
  unfold getBatchTimeoutHeight, bind, get, udiv, panic, ret.
  destruct (Z.eqb_spec (CosmosHeight (lastObserved c)) 0) as [Hc|Hc]; cbn [orb].
  { split; [discriminate | now intros [? _]]. }
  destruct (Z.eqb_spec (EthereumHeight (lastObserved c)) 0) as [He|He].
  { split; [discriminate | now intros (_ & ? & _)]. }
  destruct (Z.eqb_spec (AverageEthereumBlockTime (params c)) 0) as [Hf|Hf].
  - split; [now intros _ | reflexivity].
  - split; [discriminate | now intros (_ & _ & ?)].
Qed.

Section PanicFacts.
Context `{codec : AddressCodec} `{lim : SdkIntLimit}.

(** X20: once the scan for the current batch has returned, [BuildBatchTx]
    panics exactly when the profitability guard lets the build go ahead and
    either the stored counter is shorter than eight bytes or both observed
    heights are nonzero while the foreign block time is zero; a call that
    the guard stops never panics. *)
Theorem BuildBatch_panics_iff (c : Ctx) (T : Address) (n : Z)
    (last : option BatchTx) (fees : Z) :
  GetLastOutgoingBatchByTokenType T c = Ok (last, c) ->
  GetBatchFeesByTokenType T n c = Ok (fees, c) ->
  BuildBatchTx T n c = Panic <->
  (forall lb, last = Some lb -> GetFees lb < fees) /\
  ((exists bz, lastOutgoingBatchNonce c = Some bz /\ (length bz < 8)%nat) \/
   (CosmosHeight (lastObserved c) <> 0 /\
    EthereumHeight (lastObserved c) <> 0 /\
    AverageEthereumBlockTime (params c) = 0)).
Proof.
  intros Hlast Hfees.
  rewrite (BuildBatchTx_run_fees c T n last fees Hlast Hfees).
  rewrite <- Increment_panics_iff, <- getBatchTimeoutHeight_panics_iff.
  assert (Hguard : guardAborts last fees = false <->
                   forall lb, last = Some lb -> GetFees lb < fees).
  { unfold guardAborts. destruct last as [lb|].
    - destruct (Z.geb_spec (GetFees lb) fees) as [Hge|Hlt].
      + split; [discriminate|]. intros H. specialize (H lb eq_refl). lia.
      + split; [|reflexivity]. now intros _ lb' [= <-].
    - split; [discriminate | reflexivity]. }
  destruct (guardAborts last fees).
  - split; [discriminate|]. intros [H%Hguard _]. discriminate.
  - destruct (IncrementLastOutgoingBatchNonce c) as [[nonce c1]|].
    + destruct (getBatchTimeoutHeight c) as [[timeout c2]|].
      * split; [discriminate|]. now intros [_ [?|?]].
      * split; [|reflexivity]. intros _. split; [now apply Hguard | now right].
    + split; [|reflexivity]. intros _. split; [now apply Hguard | now left].
Qed.

(** X21: [CancelBatchTx T k] panics exactly when no batch is stored at
    (T, k): no record at all, or a record of another variant. *)
Theorem CancelBatch_panics_iff_no_batch (c : Ctx) (T : Address) (k : Z) :
  CancelBatchTx T k c = Panic <-> asBatchTx (outgoingTxs c !! (T, k)) = None.
Proof.
  destruct (outgoingTxs c !! (T, k)) as [[b| |]|] eqn:Hb.
  - rewrite (CancelBatchTx_run c T k b Hb). split; discriminate.
  - split; [reflexivity|]. intros _.
    unfold CancelBatchTx, GetOutgoingTx, MakeBatchTxKey.
    unfold bind at 1. unfold bind at 1. unfold get at 1, ret at 1. cbn beta iota.
    now rewrite Hb.
  - split; [reflexivity|]. intros _.
    unfold CancelBatchTx, GetOutgoingTx, MakeBatchTxKey.
    unfold bind at 1. unfold bind at 1. unfold get at 1, ret at 1. cbn beta iota.
    now rewrite Hb.
  - split; [reflexivity|]. intros _. now apply CancelBatchTx_missing.
Qed.

(** X22: a batch can be cancelled once: in a well-keyed batch store, after
    [CancelBatchTx T k] has returned, the same call panics. *)
Theorem CancelBatch_twice_panics (c c' : Ctx) (T : Address) (k : Z) :
  store_well_keyed c ->
  CancelBatchTx T k c = Ok (tt, c') ->
  CancelBatchTx T k c' = Panic.
Proof.
  intros Hwk Hrun. apply CancelBatchTx_inv in Hrun as (b & Hb & ->).
  apply CancelBatchTx_missing. unfold cancelledCtx. cbn.
  rewrite (Hwk _ _ Hb). apply lookup_delete_eq.
Qed.

Lemma visit_cancelEarlier_none (T : Address) (b : BatchTx)
    (l : list (N * Z * OutgoingTx)) (c : Ctx) :
  (forall key otx, (key, otx) ∈ l ->
     exists b0, otx = OtxBatch b0 /\ Nonce b <= Nonce b0) ->
  visit (cancelEarlierVisitor T (Some b)) l tt c = Ok (tt, c).
Proof.
  induction l as [|[key otx] l IH]; intros Hl; [reflexivity|].
  destruct (Hl key otx) as (b0 & -> & Hge); [left|].
  cbn [visit]. unfold bind.
  rewrite (cancelEarlierVisitor_later T b b0 key c) by lia. cbn [fst snd].
  apply IH. intros key' otx' Hin. apply (Hl key'). now right.
Qed.

(** X23: the transfers of an executed batch are not given back: when every
    record under the batch prefix is a batch and none has a smaller nonce
    than the batch at (T, k), [BatchTxExecuted T k] deletes the record of
    that batch and changes nothing else, neither the pool nor the events. *)
Theorem BatchTxExecuted_without_earlier (c : Ctx) (T : Address) (k : Z) (b : BatchTx) :
  outgoingTxs c !! (T, k) = Some (OtxBatch b) ->
  (forall key otx, outgoingTxs c !! key = Some otx ->
     exists b0, otx = OtxBatch b0 /\ Nonce b <= Nonce b0) ->
  BatchTxExecuted T k c
  = Ok (tt, with_outgoingTxs (delete (GetStoreIndex b) (outgoingTxs c)) c).
Proof.
  intros Hb Hall.
  unfold BatchTxExecuted, GetOutgoingTx, MakeBatchTxKey.
  unfold bind at 1. unfold bind at 1. unfold get at 1, ret at 1. cbn beta iota.
  rewrite Hb. cbn [asBatchTx]. unfold IterateOutgoingTxs.
  unfold bind at 1. unfold bind at 1. unfold bind at 1. unfold get at 1.
  rewrite (visit_cancelEarlier_none T b (outgoing_scan c) c); [reflexivity|].
  intros key otx Hin. apply (Hall key). now apply outgoing_scan_elem.
Qed.

End PanicFacts.

Lemma BuildBatch_panics_iff_witness :
  BuildBatchTx 5%N 2 zeroForeignTimeCtx = Panic <->
  (forall lb, None = Some lb -> GetFees lb < 0) /\
  ((exists bz, lastOutgoingBatchNonce zeroForeignTimeCtx = Some bz /\ (length bz < 8)%nat) \/
   (CosmosHeight (lastObserved zeroForeignTimeCtx) <> 0 /\
    EthereumHeight (lastObserved zeroForeignTimeCtx) <> 0 /\
    AverageEthereumBlockTime (params zeroForeignTimeCtx) = 0)).
Proof.
  apply (BuildBatch_panics_iff zeroForeignTimeCtx 5%N 2 None 0); vm_compute; reflexivity.
Defined.

Lemma CancelBatch_twice_panics_witness :
  CancelBatchTx 5%N 1
    (cancelledCtx batchedCtx 1
       (exampleBatch 5%N 1 [exampleSte 5%N 2 10; exampleSte 5%N 1 7])) = Panic.
Proof.
  apply (CancelBatch_twice_panics batchedCtx
           (cancelledCtx batchedCtx 1
              (exampleBatch 5%N 1 [exampleSte 5%N 2 10; exampleSte 5%N 1 7]))
           5%N 1).
  - apply keeper_wf_batchedCtx.
  - vm_compute. reflexivity.
Defined.

Lemma BatchTxExecuted_without_earlier_witness :
  BatchTxExecuted 5%N 1 batchedCtx
  = Ok (tt, with_outgoingTxs
              (delete (GetStoreIndex
                         (exampleBatch 5%N 1 [exampleSte 5%N 2 10; exampleSte 5%N 1 7]))
                 (outgoingTxs batchedCtx)) batchedCtx).
Proof.
  apply (BatchTxExecuted_without_earlier batchedCtx 5%N 1
           (exampleBatch 5%N 1 [exampleSte 5%N 2 10; exampleSte 5%N 1 7])).
  - reflexivity.
  - intros key otx Hk. cbn in Hk.
    apply lookup_insert_Some in Hk as [[_ <-] | [_ Hk]];
      [eexists; split; [reflexivity | cbn; lia] |].
    now rewrite lookup_empty in Hk.
Defined.

(** ** The batch builder: guard, empty pool, zero limit *)

Section BuilderGuard.
Context `{codec : AddressCodec} `{lim : SdkIntLimit}.

Lemma Increment_readable (c : Ctx) :
  counter_readable c ->
  exists nonce c1, IncrementLastOutgoingBatchNonce c = Ok (nonce, c1).
Proof.
  intros Hctr.
  destruct (IncrementLastOutgoingBatchNonce c) as [[nonce c1]|] eqn:E; [eauto|].
  apply Increment_panics_iff in E as (bz & Hbz & Hlen).
  specialize (Hctr bz Hbz). lia.
Qed.

Lemma getBatchTimeoutHeight_defined (c : Ctx) :
  timeout_defined c ->
  exists timeout c2, getBatchTimeoutHeight c = Ok (timeout, c2).
Proof.
  intros Hdef.
  destruct (getBatchTimeoutHeight c) as [[timeout c2]|] eqn:E; [eauto|].
  apply getBatchTimeoutHeight_panics_iff in E as (Hc & He & Hf).
  destruct Hdef as [?|[?|?]]; contradiction.
Qed.

Lemma guardAborts_spec (last : option BatchTx) (fees : Z) :
  guardAborts last fees = true <-> exists lb, last = Some lb /\ fees <= GetFees lb.
Proof.
  unfold guardAborts. destruct last as [lb|].
  - rewrite Z.geb_le. split; [intros ?; now exists lb | now intros (? & [= <-] & ?)].
  - split; [discriminate | now intros (? & ? & _)].
Qed.

(** C2: in a state where every record under the batch prefix is a batch,
    the fees that the fee evaluation would add are non-negative with a total
    that fits an [sdk.Int], the counter cell is absent or holds eight bytes,
    and the timeout projection does not divide by zero: let [last] be the
    current batch of [T] and [fees] the value of
    [GetBatchFeesByTokenType T n] before the call.  [BuildBatchTx T n]
    returns none, leaving the context as it was, exactly when [last] exists
    and its total fee is at least [fees]; otherwise it returns a batch whose
    total fee is [fees], stored under (T, its nonce). *)
Theorem BuildBatch_profitability_guard (c : Ctx) (T : Address) (n : Z) :
  all_batches c ->
  fees_fit (limitPrefix n (pool_scan c T)) ->
  counter_readable c ->
  timeout_defined c ->
  exists (last : option BatchTx) (fees : Z),
    GetLastOutgoingBatchByTokenType T c = Ok (last, c) /\
    GetBatchFeesByTokenType T n c = Ok (fees, c) /\
    ((exists lb, last = Some lb /\ fees <= GetFees lb) ->
     BuildBatchTx T n c = Ok (None, c)) /\
    (forall c', BuildBatchTx T n c = Ok (None, c') ->
     exists lb, last = Some lb /\ fees <= GetFees lb) /\
    (~ (exists lb, last = Some lb /\ fees <= GetFees lb) ->
     exists batch c',
       BuildBatchTx T n c = Ok (Some batch, c') /\
       GetFees batch = fees /\
       outgoingTxs c' !! (T, Nonce batch) = Some (OtxBatch batch)).
Proof.
  intros Hall Hfit Hctr Hdef.
  destruct (GetLast_result c T Hall) as (last & Hlast & _ & _).
  rewrite <- visited_limitPrefix in Hfit.
  pose proof (GetBatchFeesByTokenType_fit T n c Hfit) as Hfees.
  destruct (Increment_readable c Hctr) as (nonce & c1 & Hinc).
  destruct (getBatchTimeoutHeight_defined c Hdef) as (timeout & c2 & Htime).
  exists last, (sumFees (visited n 0 (pool_scan c T))).
  split; [exact Hlast|]. split; [exact Hfees|].
  rewrite (BuildBatchTx_run_fees c T n last _ Hlast Hfees), Hinc, Htime.
  pose proof (guardAborts_spec last (sumFees (visited n 0 (pool_scan c T)))) as Hguard.
  destruct (guardAborts last _).
  - split_and!.
    + reflexivity.
    + intros _ _. now apply Hguard.
    + intros Hno. destruct Hno. now apply Hguard.
  - assert (Hno : ~ exists lb, last = Some lb /\
                    sumFees (visited n 0 (pool_scan c T)) <= GetFees lb).
    { intros H%Hguard. discriminate. }
    split_and!.
    + intros H. now destruct Hno.
    + discriminate.
    + intros _. eexists. eexists. split; [reflexivity|].
      split; [reflexivity|]. cbn. now rewrite lookup_insert_eq.
Qed.

(** C8: in a state where every record under the batch prefix is a batch,
    the counter cell is absent or holds eight bytes, and the timeout
    projection does not divide by zero: when the unbatched pool of [T] is
    empty, so that the fee evaluation gives 0, and the current batch of [T],
    if any, does not make the guard abort, [BuildBatchTx T n] returns a
    batch with no transactions, the nonce that
    [IncrementLastOutgoingBatchNonce] allocates, the timeout that
    [getBatchTimeoutHeight] projects and the current home height, stores it
    under (T, nonce), writes the counter, and leaves the pool as it was. *)
Theorem BuildBatch_empty_pool (c : Ctx) (T : Address) (n : Z) :
  pool_empty c T ->
  all_batches c ->
  (forall lb, GetLastOutgoingBatchByTokenType T c = Ok (Some lb, c) -> GetFees lb < 0) ->
  counter_readable c ->
  timeout_defined c ->
  exists (nonce timeout : Z) (c1 c2 c' : Ctx),
    GetBatchFeesByTokenType T n c = Ok (0, c) /\
    IncrementLastOutgoingBatchNonce c = Ok (nonce, c1) /\
    getBatchTimeoutHeight c = Ok (timeout, c2) /\
    BuildBatchTx T n c
    = Ok (Some {| Nonce := nonce;
                  Timeout := timeout;
                  Transactions := [];
                  TokenContract := Hex T;
                  Height := uint64_of_int64 (BlockHeight c) |}, c') /\
    outgoingTxs c' !! (T, nonce)
    = Some (OtxBatch {| Nonce := nonce;
                        Timeout := timeout;
                        Transactions := [];
                        TokenContract := Hex T;
                        Height := uint64_of_int64 (BlockHeight c) |}) /\
    unbatched c' = unbatched c /\
    lastOutgoingBatchNonce c' = Some (Uint64ToBigEndian nonce).
Proof.
  intros Hempty Hall Hguard Hctr Hdef.
  apply pool_scan_empty in Hempty.
  destruct (GetLast_result c T Hall) as (last & Hlast & _ & _).
  assert (Hfees : GetBatchFeesByTokenType T n c = Ok (0, c)).
  { rewrite GetBatchFeesByTokenType_eq, Hempty. reflexivity. }
  destruct (Increment_readable c Hctr) as (nonce & c1 & Hinc).
  destruct (getBatchTimeoutHeight_defined c Hdef) as (timeout & c2 & Htime).
  exists nonce, timeout, c1, c2.
  rewrite (BuildBatchTx_run_fees c T n last 0 Hlast Hfees), Hinc, Htime, Hempty.
  assert (G : guardAborts last 0 = false).
  { destruct last as [lb|]; [|reflexivity]. cbn.
    specialize (Hguard lb Hlast). lia. }
  rewrite G. cbn [visited].
  eexists. split; [exact Hfees|]. split_and!; try reflexivity.
  cbn. now rewrite lookup_insert_eq.
Qed.

(** C10: with [maxElements = 0] the stop test never fires.  The selection
    step of [BuildBatchTx] visits the whole pool of the token: it returns
    every entry, in scan order, and deletes each one.  The fee evaluation
    adds the fee of every entry of the pool, first to last, so that what it
    returns is the total fee of the whole pool, and it panics only when
    that running total overflows.  A batch that [BuildBatchTx T 0] returns
    holds the whole pool, and in a well-keyed pool no entry of the token is
    left. *)
Theorem zero_limit_is_unlimited (c : Ctx) (T : Address) :
  IterateUnbatchedSendToEthereumsByContract T (selectVisitor 0) [] c
  = Ok (pool_scan c T, with_unbatched (drain (pool_scan c T) (unbatched c)) c) /\
  GetBatchFeesByTokenType T 0 c
  = match addFees 0 (pool_scan c T) with
    | Ok fees => Ok (fees, c)
    | Panic => Panic
    end /\
  (forall fees c', GetBatchFeesByTokenType T 0 c = Ok (fees, c') ->
     fees = sumFees (pool_scan c T) /\ c' = c) /\
  (forall batch c', BuildBatchTx T 0 c = Ok (Some batch, c') ->
     Transactions batch = pool_scan c T /\
     (pool_well_keyed c -> pool_empty c' T)).
Proof.
  assert (Hall : visited 0 0 (pool_scan c T) = pool_scan c T)
    by (apply visited_zero_limit; lia).
  split_and!.
  - unfold IterateUnbatchedSendToEthereumsByContract.
    unfold bind at 1. unfold get at 1.
    rewrite visit_selectVisitor. cbn [app length]. change (Z.of_nat 0) with 0.
    now rewrite Hall.
  - now rewrite GetBatchFeesByTokenType_eq, Hall.
  - intros fees c' Hfees.
    apply GetBatchFeesByTokenType_Ok in Hfees. now rewrite Hall in Hfees.
  - intros batch c' Hbuild.
    destruct (GetLastOutgoingBatchByTokenType T c) as [[last c0]|] eqn:Hlast.
    2:{ unfold BuildBatchTx in Hbuild. now rewrite (bind_Panic _ _ _ Hlast) in Hbuild. }
    pose proof (GetLastOutgoingBatchByTokenType_readonly T c c0 last Hlast) as ->.
    apply (BuildBatchTx_run_Ok c _ T 0 last _ Hlast) in Hbuild.
    rewrite Hall in Hbuild.
    destruct (guardAborts last _); [discriminate|].
    destruct (IncrementLastOutgoingBatchNonce c) as [[nonce c1]|]; [|discriminate].
    destruct (getBatchTimeoutHeight c) as [[timeout c2]|]; [|discriminate].
    injection Hbuild as <- <-. split; [reflexivity|].
    intros Hwf k ste Hk HT. cbn in Hk.
    pose proof (lookup_drain_Some _ _ _ _ Hk) as Hk0.
    assert (Hin : ste ∈ pool_scan c T) by (apply pool_scan_elem; eauto).
    rewrite (Hwf k ste Hk0) in Hk.
    now rewrite (lookup_drain_elem _ _ _ Hin) in Hk.
Qed.

End BuilderGuard.

Lemma all_batches_batchedCtx : all_batches batchedCtx.
Proof.
  intros k otx Hk. cbn in Hk.
  apply lookup_insert_Some in Hk as [[_ <-] | [_ Hk]];
    [eexists; split; [reflexivity | cbn; lia] |].
  now rewrite lookup_empty in Hk.
Qed.

Lemma all_batches_cheapBatchCtx : all_batches cheapBatchCtx.
Proof.
  intros k otx Hk. cbn in Hk.
  apply lookup_insert_Some in Hk as [[_ <-] | [_ Hk]];
    [eexists; split; [reflexivity | cbn; lia] |].
  now rewrite lookup_empty in Hk.
Qed.

(** The guard at work: with a current batch of total fee 17 and a pool
    worth 3 the call returns none; with a current batch of total fee 3 and
    a pool worth 17 it builds the batch of nonce 2. *)
Lemma BuildBatch_profitability_guard_witness :
  BuildBatchTx 5%N 2 batchedCtx = Ok (None, batchedCtx) /\
  exists batch c',
    BuildBatchTx 5%N 2 cheapBatchCtx = Ok (Some batch, c') /\
    GetFees batch = 17 /\
    outgoingTxs c' !! (5%N, Nonce batch) = Some (OtxBatch batch).
Proof.
  split.
  - destruct (BuildBatch_profitability_guard batchedCtx 5%N 2)
      as (last & fees & Hlast & Hfees & Habort & _).
    + exact all_batches_batchedCtx.
    + vm_compute. split; [repeat constructor; discriminate | reflexivity].
    + intros bz Hbz. discriminate Hbz.
    + right. right. discriminate.
    + apply Habort.
      assert (E1 : GetLastOutgoingBatchByTokenType 5%N batchedCtx
                   = Ok (Some (exampleBatch 5%N 1 [exampleSte 5%N 2 10; exampleSte 5%N 1 7]),
                         batchedCtx)) by (vm_compute; reflexivity).
      assert (E2 : GetBatchFeesByTokenType 5%N 2 batchedCtx = Ok (3, batchedCtx))
        by (vm_compute; reflexivity).
      rewrite E1 in Hlast. rewrite E2 in Hfees.
      injection Hlast as <-. injection Hfees as <-.
      eexists. split; [reflexivity|]. vm_compute. discriminate.
  - destruct (BuildBatch_profitability_guard cheapBatchCtx 5%N 2)
      as (last & fees & Hlast & Hfees & _ & _ & Hbuild).
    + exact all_batches_cheapBatchCtx.
    + vm_compute. split; [repeat constructor; discriminate | reflexivity].
    + intros bz [= <-]. vm_compute. constructor.
    + right. right. discriminate.
    + assert (E1 : GetLastOutgoingBatchByTokenType 5%N cheapBatchCtx
                   = Ok (Some (exampleBatch 5%N 1 [exampleSte 5%N 3 3]), cheapBatchCtx))
        by (vm_compute; reflexivity).
      assert (E2 : GetBatchFeesByTokenType 5%N 2 cheapBatchCtx = Ok (17, cheapBatchCtx))
        by (vm_compute; reflexivity).
      rewrite E1 in Hlast. rewrite E2 in Hfees.
      injection Hlast as <-. injection Hfees as <-.
      apply Hbuild. intros (lb & [= <-] & Hle). vm_compute in Hle. now apply Hle.
Defined.

(** The guard lets the call through and the call panics: no batch of token 5
    is outstanding, the pool is worth 17 for a limit of 2, and the foreign
    block time is zero. *)
Lemma BuildBatch_guard_passes_then_panics :
  GetLastOutgoingBatchByTokenType 5%N zeroForeignTimePoolCtx
  = Ok (None, zeroForeignTimePoolCtx) /\
  GetBatchFeesByTokenType 5%N 2 zeroForeignTimePoolCtx
  = Ok (17, zeroForeignTimePoolCtx) /\
  BuildBatchTx 5%N 2 zeroForeignTimePoolCtx = Panic.
Proof. split_and!; vm_compute; reflexivity. Qed.

Lemma pool_empty_threeBatchCtx (T : Address) : pool_empty threeBatchCtx T.
Proof. intros k ste Hk. cbn in Hk. now rewrite lookup_empty in Hk. Qed.

Lemma BuildBatch_empty_pool_witness :
  exists (nonce timeout : Z) (c1 c2 c' : Ctx),
    GetBatchFeesByTokenType 7%N 100 threeBatchCtx = Ok (0, threeBatchCtx) /\
    IncrementLastOutgoingBatchNonce threeBatchCtx = Ok (nonce, c1) /\
    getBatchTimeoutHeight threeBatchCtx = Ok (timeout, c2) /\
    BuildBatchTx 7%N 100 threeBatchCtx
    = Ok (Some {| Nonce := nonce;
                  Timeout := timeout;
                  Transactions := [];
                  TokenContract := Hex 7%N;
                  Height := uint64_of_int64 (BlockHeight threeBatchCtx) |}, c') /\
    outgoingTxs c' !! (7%N, nonce)
    = Some (OtxBatch {| Nonce := nonce;
                        Timeout := timeout;
                        Transactions := [];
                        TokenContract := Hex 7%N;
                        Height := uint64_of_int64 (BlockHeight threeBatchCtx) |}) /\
    unbatched c' = unbatched threeBatchCtx /\
    lastOutgoingBatchNonce c' = Some (Uint64ToBigEndian nonce).
Proof.
  apply (BuildBatch_empty_pool threeBatchCtx 7%N 100).
  - apply pool_empty_threeBatchCtx.
  - exact all_batches_threeBatchCtx.
  - intros lb Hlb. vm_compute in Hlb. discriminate Hlb.
  - intros bz Hbz. discriminate Hbz.
  - right. right. discriminate.
Defined.

(** An empty pool, no outstanding batch, and yet no batch: the foreign
    block time is zero and the timeout projection divides by it. *)
Lemma BuildBatch_empty_pool_panics :
  pool_scan zeroForeignTimeCtx 5%N = [] /\
  GetLastOutgoingBatchByTokenType 5%N zeroForeignTimeCtx = Ok (None, zeroForeignTimeCtx) /\
  BuildBatchTx 5%N 100 zeroForeignTimeCtx = Panic.
Proof. split_and!; vm_compute; reflexivity. Qed.

Lemma zero_limit_is_unlimited_witness :
  GetBatchFeesByTokenType 5%N 0 poolCtx = Ok (20, poolCtx) /\
  GetBatchFeesByTokenType 5%N 0 hugeFeeCtx = Panic /\
  exists batch c',
    BuildBatchTx 5%N 0 poolCtx = Ok (Some batch, c') /\
    Transactions batch = [exampleSte 5%N 2 10; exampleSte 5%N 1 7; exampleSte 5%N 3 3].
Proof.
  destruct (zero_limit_is_unlimited poolCtx 5%N) as (_ & Hfee & _ & Hbuild).
  destruct (zero_limit_is_unlimited hugeFeeCtx 5%N) as (_ & Hhuge & _ & _).
  split_and!.
  - rewrite Hfee. vm_compute. reflexivity.
  - rewrite Hhuge. vm_compute. reflexivity.
  - destruct (BuildBatchTx 5%N 0 poolCtx) as [[[batch|] c']|] eqn:E.
    + exists batch, c'. split; [reflexivity|].
      destruct (Hbuild batch c' eq_refl) as [-> _]. vm_compute. reflexivity.
    + vm_compute in E. discriminate E.
    + vm_compute in E. discriminate E.
Defined.
